(** * ChatMCA: the chat relay of chatMCA/views.py

    A shallow embedding of the request path of [views.py]: the input
    validator ([sanitize_input]), the rate limiter ([rate_limit_check]),
    the context builder ([build_conversation_context]), the completion
    client ([BulletproofGeminiHandler]) and the endpoint ([chat_api]),
    followed by the properties of the design document.

    Conventions.
    - A Python [str] is a [string] whose characters are the code points
      0..255; [Py.strip], [Py.lower] and [Py.split_len] follow CPython on
      that range.
    - [time.time()] and the sleep delays are rationals ([Q]).
    - An exception is a value of [exn]; a call that can raise returns a
      [result]. *)

From Stdlib Require Import String Ascii DecimalString List ZArith QArith Qround Lia Lqa Bool.
From Stdlib Require Import Sorted Permutation.
From stdpp Require Import gmap strings.
Import ListNotations.

(** ** Python runtime: strings *)

Module Py.

(** [c.isspace()] on code points below 256. *)
Definition is_space (c : ascii) : bool :=
  let n := nat_of_ascii c in
  (Nat.leb 9 n && Nat.leb n 13) || (Nat.leb 28 n && Nat.leb n 32)
  || Nat.eqb n 133 || Nat.eqb n 160.

(** [s.lstrip()] *)
Fixpoint lstrip (s : string) : string :=
  match s with
  | EmptyString => EmptyString
  | String c r => if is_space c then lstrip r else s
  end.

(** [s.rstrip()] *)
Fixpoint rstrip (s : string) : string :=
  match s with
  | EmptyString => EmptyString
  | String c r =>
      match rstrip r with
      | EmptyString => if is_space c then EmptyString else String c EmptyString
      | r' => String c r'
      end
  end.

(** [s.strip()] *)
Definition strip (s : string) : string := rstrip (lstrip s).

(** [c.lower()] on code points below 256: A-Z and the accented capitals
    0xC0..0xDE (the multiplication sign 0xD7 excepted) move up by 32. *)
Definition lower_char (c : ascii) : ascii :=
  let n := nat_of_ascii c in
  if (Nat.leb 65 n && Nat.leb n 90)
     || (Nat.leb 192 n && Nat.leb n 222 && negb (Nat.eqb n 215))
  then ascii_of_nat (n + 32) else c.

(** [s.lower()] *)
Fixpoint lower (s : string) : string :=
  match s with
  | EmptyString => EmptyString
  | String c r => String (lower_char c) (lower r)
  end.

(** [s.startswith(p)] *)
Fixpoint startswith (p s : string) : bool :=
  match p, s with
  | EmptyString, _ => true
  | String _ _, EmptyString => false
  | String a p', String b s' => Ascii.eqb a b && startswith p' s'
  end.

(** [p in s] *)
Fixpoint contains (p s : string) : bool :=
  startswith p s ||
  match s with
  | EmptyString => false
  | String _ r => contains p r
  end.

(** [s.replace(c, rep)] for a one-character pattern [c]. *)
Fixpoint replace (c : ascii) (rep s : string) : string :=
  match s with
  | EmptyString => EmptyString
  | String a r =>
      if Ascii.eqb a c then rep +:+ replace c rep r
      else String a (replace c rep r)
  end.

(** [len(s.split())]: the number of maximal runs of non-space
    characters; [in_word] tells whether the previous character belonged
    to a run. *)
Fixpoint count_words (in_word : bool) (s : string) : nat :=
  match s with
  | EmptyString => 0
  | String c r =>
      if is_space c then count_words false r
      else (if in_word then 0 else 1) + count_words true r
  end.

Definition split_len (s : string) : nat := count_words false s.

(** [str(n)] for a non-negative integer. *)
Definition str_of_nat (n : nat) : string :=
  NilEmpty.string_of_uint (Nat.to_uint n).

Definition dquote : ascii := ascii_of_nat 34.
Definition squote : ascii := ascii_of_nat 39.
Definition newline : ascii := ascii_of_nat 10.

(** [html.escape(s)] with its default [quote=True]: five replacements in
    this order, the ampersand first. *)
Definition escape (s : string) : string :=
  let s := replace "&"%char "&amp;" s in
  let s := replace "<"%char "&lt;" s in
  let s := replace ">"%char "&gt;" s in
  let s := replace dquote "&quot;" s in
  replace squote "&#x27;" s.

(** [re.sub(r'<[^>]+>', '', s)].  A match starts at a [<] and ends at
    the first [>] after it, with at least one character in between.
    [st = None] outside a candidate match; [st = Some buf] after a [<],
    with [buf] the characters read since.  A candidate that meets no
    [>] is kept as it is, and [<>] is kept. *)
Fixpoint sub_tags (st : option string) (s : string) : string :=
  match s with
  | EmptyString =>
      match st with
      | None => EmptyString
      | Some buf => String "<"%char buf
      end
  | String c r =>
      match st with
      | None =>
          if Ascii.eqb c "<"%char then sub_tags (Some EmptyString) r
          else String c (sub_tags None r)
      | Some buf =>
          if Ascii.eqb c ">"%char then
            match buf with
            | EmptyString => String "<"%char (String ">"%char (sub_tags None r))
            | String _ _ => sub_tags None r
            end
          else sub_tags (Some (buf +:+ String c EmptyString)) r
      end
  end.

End Py.

(** ** Exceptions and results *)

Inductive exn : Type :=
| ValueError (msg : string)
| Exception (msg : string).

(** [str(e)] *)
Definition exn_msg (e : exn) : string :=
  match e with
  | ValueError m => m
  | Exception m => m
  end.

Inductive result (A : Type) : Type :=
| Ok (a : A)
| Raise (e : exn).
Arguments Ok {A} a.
Arguments Raise {A} e.

(** ** Input validator *)

Definition EmptyInput : exn := ValueError "Please enter a message".
Definition TooLong : exn := ValueError "Message too long (max 1200 characters)".

Definition sanitize_input (message : string) : result string :=
  if Nat.eqb (String.length message) 0
     || Nat.eqb (String.length (Py.strip message)) 0
  then Raise EmptyInput
  else if Nat.ltb 1200 (String.length message)
  then Raise TooLong
  else
    let cleaned := Py.sub_tags None message in
    let cleaned := Py.escape (Py.strip cleaned) in
    Ok cleaned.

(** ** Python runtime: lists and clocks *)

(** [l[i:]] for any integer [i]: a negative index counts from the end,
    and the start is clamped to the list. *)
Definition slice_from {A : Type} (i : Z) (l : list A) : list A :=
  let n := Z.of_nat (length l) in
  let start := if (i <? 0)%Z then Z.max 0 (i + n) else Z.min i n in
  skipn (Z.to_nat start) l.

(** [l[-k:] if len(l) > k else l], the idiom both the context builder and
    the completion client use to keep the end of a list. *)
Definition keep_last {A : Type} (k : Z) (l : list A) : list A :=
  if (k <? Z.of_nat (length l))%Z then slice_from (- k) l else l.

(** [x < y] on clock values. *)
Definition Qltb (x y : Q) : bool := negb (Qle_bool y x).

(** ** Rate limiter *)

(** The cache API of [django.core.cache]: a key holds a value until its
    expiry time; [get] of an absent or expired key yields the default.
    Values are pickled by the backend, so a list read from the cache
    shares nothing with the stored one.  Capacity culling of the backend
    is outside the model. *)
Record cache_entry : Type := {
  ce_value : list Q;
  ce_expires : Q
}.

Definition cache_get (c : gmap string cache_entry) (key : string)
    (now : Q) (default : list Q) : list Q :=
  match c !! key with
  | Some e => if Qltb now (ce_expires e) then ce_value e else default
  | None => default
  end.

(** [cache.set(key, value, timeout)]: a zero timeout expires at once. *)
Definition cache_set (c : gmap string cache_entry) (key : string)
    (value : list Q) (timeout : Z) (now : Q) : gmap string cache_entry :=
  let timeout := if (timeout =? 0)%Z then (-1)%Z else timeout in
  <[key := {| ce_value := value; ce_expires := now + inject_Z timeout |}]> c.

(** What the endpoint reads of a request.  The body is not JSON
    ([JSONDecodeError]); or it fails with another exception, as do
    undecodable bytes, a document that is not an object and a truthy
    message that is not a string ([Unexpected]); or it is an object whose
    message is a string ([Message (Some s)]) or is absent, null or another
    falsy value ([Message None]). *)
Inductive body : Type :=
| JSONDecodeError
| Unexpected
| Message (m : option string).

Record request : Type := {
  REMOTE_ADDR : option string;
  req_body : body;
  current_chat_session : option string;
  req_user : option nat
}.

Definition cache_key_of (req : request) : string :=
  let user_ip := default "unknown" (REMOTE_ADDR req) in
  "chat_rate_limit_" +:+ user_ip.

(** [rate_limit_check(request, max_requests, window)] at clock value
    [now]; the result is the verdict and the cache afterwards. *)
Definition rate_limit_check (c : gmap string cache_entry) (req : request)
    (now : Q) (max_requests : Z) (window : Z) : bool * gmap string cache_entry :=
  let cache_key := cache_key_of req in
  let requests := cache_get c cache_key now [] in
  let requests :=
    List.filter (fun req_time => Qltb (now - req_time) (inject_Z window)) requests in
  if (max_requests <=? Z.of_nat (length requests))%Z then (false, c)
  else
    let requests := requests ++ [now] in
    (true, cache_set c cache_key requests window now).

(** ** Conversation store *)

Record ChatSession : Type := {
  cs_pk : nat;
  cs_session_id : string;
  cs_user : option nat;
  cs_created_at : Q;
  cs_updated_at : Q;
  cs_is_active : bool
}.

Record ChatMessage : Type := {
  session : nat;
  user_message : string;
  ai_response : string;
  timestamp : Q;
  response_time : Q;
  tokens_used : nat
}.

Record store : Type := {
  sessions : list ChatSession;
  messages : list ChatMessage
}.

(** [order_by('timestamp')]: rows in ascending timestamp order, rows of
    equal timestamp in insertion order. *)
Fixpoint insert_by_timestamp (m : ChatMessage) (l : list ChatMessage)
    : list ChatMessage :=
  match l with
  | [] => [m]
  | x :: r =>
      if Qltb (timestamp m) (timestamp x) then m :: l
      else x :: insert_by_timestamp m r
  end.

Definition order_by_timestamp (l : list ChatMessage) : list ChatMessage :=
  fold_left (fun acc m => insert_by_timestamp m acc) l [].

(** [ChatMessage.objects.filter(session=session)] *)
Definition filter_session (pk : nat) (l : list ChatMessage) : list ChatMessage :=
  List.filter (fun m => Nat.eqb (session m) pk) l.

(** ** Context builder *)

Record turn : Type := {
  role : string;
  parts : list string
}.

Definition user_turn (text : string) : turn :=
  {| role := "user"; parts := [text] |}.
Definition model_turn (text : string) : turn :=
  {| role := "model"; parts := [text] |}.

(** The loop body of the builder: one message gives two turns. *)
Fixpoint expand (msgs : list ChatMessage) : list turn :=
  match msgs with
  | [] => []
  | msg :: r =>
      user_turn (user_message msg) :: model_turn (ai_response msg) :: expand r
  end.

Definition build_conversation_context (db : store) (pk : nat)
    (max_messages : Z) : list turn :=
  let msgs := order_by_timestamp (filter_session pk (messages db)) in
  let msgs := keep_last max_messages msgs in
  expand msgs.

(** ** Completion client *)

Definition STABLE_MODELS : list string :=
  ["gemini-1.5-flash"; "gemini-pro"; "gemini-1.5-pro"].

(** What a call of [generate_content] followed by [response.text] gives:
    a text, or an exception. *)
Inductive outcome : Type :=
| Text (text : string)
| Fails (e : exn).

(** The collaborators of the client.  [generate n model contents] is the
    outcome of the [n]-th generation call of the process, [probe n name]
    the outcome of its [n]-th probe, [uniform n] the [n]-th value drawn
    by [random.uniform(0.5, 1.5)]. *)
Record env : Type := {
  GEMINI_API_KEY : option string;
  configure : string -> option exn;
  probe : nat -> string -> outcome;
  generate : nat -> string -> list turn -> outcome;
  uniform : nat -> Q
}.

(** The handler object together with the trace of its effects: the
    generation calls issued (model and contents), the models probed, the
    delays slept, each list oldest first. *)
Record client : Type := {
  initialized : bool;
  working_model : option string;
  calls : list (string * list turn);
  probes : list string;
  sleeps : list Q
}.

(** [BulletproofGeminiHandler.__init__] before it calls [initialize]. *)
Definition new_client : client :=
  {| initialized := false; working_model := None;
     calls := []; probes := []; sleeps := [] |}.

(** [bool(response and response.text and len(response.text.strip()) > 0)] *)
Definition has_text (text : string) : bool :=
  negb (Nat.eqb (String.length text) 0)
  && Nat.ltb 0 (String.length (Py.strip text)).

Section Client.
Variable E : env.

Definition test_model (h : client) (model_name : string) : bool * client :=
  let h' := {| initialized := initialized h; working_model := working_model h;
               calls := calls h; probes := probes h ++ [model_name];
               sleeps := sleeps h |} in
  match probe E (length (probes h)) model_name with
  | Text text => (has_text text, h')
  | Fails _ => (false, h')
  end.

(** The loop of [initialize] over the candidate models. *)
Fixpoint find_model (names : list string) (h : client) : bool * client :=
  match names with
  | [] => (false, h)
  | model_name :: rest =>
      let (ok, h) := test_model h model_name in
      if ok then
        (true, {| initialized := true; working_model := Some model_name;
                  calls := calls h; probes := probes h; sleeps := sleeps h |})
      else find_model rest h
  end.

Definition initialize (h : client) : bool * client :=
  match GEMINI_API_KEY E with
  | None => (false, h)
  | Some key =>
      if Nat.eqb (String.length key) 0 then (false, h)
      else match configure E key with
           | Some _ => (false, h)
           | None => find_model STABLE_MODELS h
           end
  end.

(** [BulletproofGeminiHandler()]: the constructor runs [initialize]
    once, whatever it returns. *)
Definition BulletproofGeminiHandler : client := snd (initialize new_client).

Definition NON_RETRYABLE : list string := ["quota"; "billing"; "key"; "auth"].

(** [any(keyword in error_msg for keyword in [...])] *)
Definition non_retryable (error_msg : string) : bool :=
  existsb (fun keyword => Py.contains keyword error_msg) NON_RETRYABLE.

(** The context of attempt number [attempt], the progressive
    simplification at the head of the loop body. *)
Definition context_for (attempt : nat) (msgs : list turn)
    (user_message : string) : list turn :=
  match attempt with
  | 0 => msgs ++ [user_turn user_message]
  | 1 => keep_last 8 msgs ++ [user_turn user_message]
  | 2 => keep_last 4 msgs ++ [user_turn user_message]
  | 3 =>
      [user_turn ("Previous conversation context: "
                  +:+ Py.str_of_nat (length msgs / 2)
                  +:+ " messages exchanged."
                  +:+ String Py.newline (String Py.newline "Current question: ")
                  +:+ user_message)]
  | _ => [user_turn user_message]
  end.

Definition record_call (h : client) (model : string) (ctx : list turn) : client :=
  {| initialized := initialized h; working_model := working_model h;
     calls := calls h ++ [(model, ctx)]; probes := probes h;
     sleeps := sleeps h |}.

(** [time.sleep(delay)] with the delay of the retry branch. *)
Definition backoff (h : client) (attempt : nat) : client :=
  let delay :=
    (inject_Z (Z.of_nat ((attempt + 1) * 2)) + uniform E (length (sleeps h)))%Q in
  {| initialized := initialized h; working_model := working_model h;
     calls := calls h; probes := probes h; sleeps := sleeps h ++ [delay] |}.

Definition Exhausted : exn :=
  Exception "Unable to get response after multiple attempts".
Definition Unavailable : exn :=
  Exception "AI service is temporarily unavailable".

(** The [for attempt in range(max_attempts)] loop, entered at
    [attempt] with [remaining] iterations to go. *)
Fixpoint attempts (remaining attempt max_attempts : nat)
    (msgs : list turn) (user_message : string) (h : client)
    : result string * client :=
  match remaining with
  | 0 => (Raise Exhausted, h)
  | S remaining' =>
      let context := context_for attempt msgs user_message in
      let model := default EmptyString (working_model h) in
      let response := generate E (length (calls h)) model context in
      let h := record_call h model context in
      match response with
      | Text text =>
          if has_text text then (Ok (Py.strip text), h)
          else attempts remaining' (S attempt) max_attempts msgs user_message h
      | Fails e =>
          let error_msg := Py.lower (exn_msg e) in
          if non_retryable error_msg then (Raise e, h)
          else
            let h := if Nat.ltb attempt (max_attempts - 1)
                     then backoff h attempt else h in
            attempts remaining' (S attempt) max_attempts msgs user_message h
      end
  end.

Definition generate_response (h : client) (msgs : list turn)
    (user_message : string) (max_attempts : nat) : result string * client :=
  let h := if initialized h then h else snd (initialize h) in
  if negb (initialized h) then (Raise Unavailable, h)
  else attempts max_attempts 0 max_attempts msgs user_message h.

End Client.

(** ** Request handler *)

(** What one request reads of its surroundings: the clock of the rate
    limiter, the clock around the generation call, [timezone.now()] for
    the rows written, and the value of [uuid.uuid4()] (taken to be unused
    so far). *)
Record ambient : Type := {
  now : Q;
  start_time : Q;
  end_time : Q;
  tz_now : Q;
  uuid4 : string
}.

Inductive payload : Type :=
| ErrorBody (error : string)
| ReplyBody (response : string) (latency : Q) (session_id : string).

Record JsonResponse : Type := {
  status : nat;
  content : payload
}.

(** The process-wide state: the cache, the database and the global
    [gemini_handler]. *)
Record app : Type := {
  the_cache : gmap string cache_entry;
  db : store;
  gemini_handler : client
}.

Definition next_pk (l : list ChatSession) : nat :=
  S (fold_right (fun s acc => Nat.max (cs_pk s) acc) 0 l).

(** [get_or_create_session(request)]: the session, the store and the
    token of the cookie session afterwards. *)
Definition get_or_create_session (d : store) (req : request) (a : ambient)
    : ChatSession * store * option string :=
  let create :=
    let chat_session :=
      {| cs_pk := next_pk (sessions d); cs_session_id := uuid4 a;
         cs_user := req_user req; cs_created_at := tz_now a;
         cs_updated_at := tz_now a; cs_is_active := true |} in
    (chat_session,
     {| sessions := sessions d ++ [chat_session]; messages := messages d |},
     Some (cs_session_id chat_session)) in
  match current_chat_session req with
  | Some sid =>
      if Nat.eqb (String.length sid) 0 then create
      else
        match find (fun s => String.eqb (cs_session_id s) sid && cs_is_active s)
                   (sessions d) with
        | Some s => (s, d, current_chat_session req)
        | None => create
        end
  | None => create
  end.

(** [round(x, 2)], halves to the even neighbour. *)
Definition round_half_even (q : Q) : Z :=
  let f := Qfloor q in
  match Qcompare (q - inject_Z f) (1 # 2) with
  | Lt => f
  | Gt => (f + 1)%Z
  | Eq => if Z.even f then f else (f + 1)%Z
  end.

Definition round2 (q : Q) : Q :=
  (inject_Z (round_half_even (q * inject_Z 100)) / inject_Z 100)%Q.

Definition MSG_QUOTA : string :=
  "API quota reached. Please try again in a few minutes.".
Definition MSG_AUTH : string :=
  "Authentication issue. Please check your setup.".
Definition MSG_DEMAND : string :=
  "I'm experiencing high demand right now. Please try again in a moment.".
Definition MSG_TEMPORARY : string :=
  "I'm having temporary difficulties. Please try again shortly.".

(** The [except Exception as ai_error] branch of the endpoint. *)
Definition user_msg_for (ai_error : exn) : string :=
  let error_msg := Py.lower (exn_msg ai_error) in
  if Py.contains "quota" error_msg || Py.contains "billing" error_msg
  then MSG_QUOTA
  else if Py.contains "key" error_msg || Py.contains "auth" error_msg
  then MSG_AUTH
  else if Py.contains "unavailable" error_msg
  then MSG_DEMAND
  else MSG_TEMPORARY.

Definition touch (pk : nat) (t : Q) (l : list ChatSession) : list ChatSession :=
  map (fun s =>
         if Nat.eqb (cs_pk s) pk then
           {| cs_pk := cs_pk s; cs_session_id := cs_session_id s;
              cs_user := cs_user s; cs_created_at := cs_created_at s;
              cs_updated_at := t; cs_is_active := cs_is_active s |}
         else s) l.

Section Endpoint.
Variable E : env.

(** [chat_api(request)]: the response, the state afterwards and the
    token of the cookie session afterwards.  The store operations are
    taken to succeed. *)
Definition chat_api (st : app) (req : request) (a : ambient)
    : JsonResponse * app * option string :=
  let (admitted, cache') := rate_limit_check (the_cache st) req (now a) 6 60 in
  let st := {| the_cache := cache'; db := db st;
               gemini_handler := gemini_handler st |} in
  if negb admitted then
    ({| status := 429;
        content := ErrorBody
          "Please wait a moment before sending another message (max 6 per minute)." |},
     st, current_chat_session req)
  else
    match req_body req with
    | JSONDecodeError =>
        ({| status := 400; content := ErrorBody "Invalid request format." |},
         st, current_chat_session req)
    | Unexpected =>
        ({| status := 500;
            content := ErrorBody "Something went wrong. Please try again." |},
         st, current_chat_session req)
    | Message m =>
        let raw := default EmptyString m in
        if Nat.eqb (String.length raw) 0 then
          ({| status := 400; content := ErrorBody "Please enter a message." |},
           st, current_chat_session req)
        else
          match sanitize_input raw with
          | Raise e =>
              ({| status := 400; content := ErrorBody (exn_msg e) |},
               st, current_chat_session req)
          | Ok user_message =>
              let '(chat_session, d, token) :=
                get_or_create_session (db st) req a in
              let chat_history :=
                build_conversation_context d (cs_pk chat_session) 4 in
              match generate_response E (gemini_handler st)
                      chat_history user_message 5 with
              | (Ok ai_response, h) =>
                  let response_time := (end_time a - start_time a)%Q in
                  let row :=
                    {| session := cs_pk chat_session;
                       user_message := user_message;
                       ai_response := ai_response;
                       timestamp := tz_now a;
                       response_time := response_time;
                       tokens_used := Py.split_len user_message
                                      + Py.split_len ai_response |} in
                  let d :=
                    {| sessions := touch (cs_pk chat_session) (tz_now a) (sessions d);
                       messages := messages d ++ [row] |} in
                  ({| status := 200;
                      content := ReplyBody ai_response (round2 response_time)
                                   (cs_session_id chat_session) |},
                   {| the_cache := the_cache st; db := d; gemini_handler := h |},
                   token)
              | (Raise ai_error, h) =>
                  ({| status := 503;
                      content := ErrorBody (user_msg_for ai_error) |},
                   {| the_cache := the_cache st; db := d; gemini_handler := h |},
                   token)
              end
          end
    end.

End Endpoint.

(** * Vocabulary of the properties *)

(** A string of [n] copies of [c]. *)
Fixpoint replicate_char (n : nat) (c : ascii) : string :=
  match n with
  | 0 => EmptyString
  | S k => String c (replicate_char k c)
  end.

(** The timestamps the check keeps from the stored ones. *)
Definition in_window (now : Q) (window : Z) (l : list Q) : list Q :=
  List.filter (fun req_time => Qltb (now - req_time) (inject_Z window)) l.

(** Successive checks of one client at the clock values [times], every
    one admitted; [None] as soon as one is rejected. *)
Fixpoint admitted_run (c : gmap string cache_entry) (req : request)
    (times : list Q) (max_requests window : Z)
    : option (gmap string cache_entry) :=
  match times with
  | [] => Some c
  | t :: rest =>
      let (ok, c') := rate_limit_check c req t max_requests window in
      if ok then admitted_run c' req rest max_requests window else None
  end.

(** [x] lies in the window trailing [T]. *)
Definition trailing (T : Q) (window : Z) (x : Q) : Prop :=
  (x <= T /\ T - x < inject_Z window)%Q.

(** The invariant of such a run: the admitted clock values [p] are the
    tail of the stored list, which expires one window after the last. *)
Definition recorded (c : gmap string cache_entry) (key : string)
    (window : Z) (p : list Q) : Prop :=
  p = [] \/
  exists old p' last,
    p = p' ++ [last] /\
    c !! key = Some {| ce_value := old ++ p;
                       ce_expires := (last + inject_Z window)%Q |}.

Definition client_a : request :=
  {| REMOTE_ADDR := Some "10.0.0.7"; req_body := Message (Some "Hello");
     current_chat_session := None; req_user := None |}.

Definition six_times : list Q :=
  [inject_Z 0; inject_Z 5; inject_Z 10; inject_Z 15; inject_Z 20; inject_Z 25].

Definition after_six : gmap string cache_entry :=
  default ∅ (admitted_run ∅ client_a six_times 6 60).

Definition ascending (l : list ChatMessage) : Prop :=
  Sorted (fun a b => (timestamp a <= timestamp b)%Q) l.

(** Roles alternate, a user turn first: the roles of the turns are
    ["user"; "model"] repeated. *)
Fixpoint alternating (n : nat) : list string :=
  match n with
  | 0 => []
  | S k => "user" :: "model" :: alternating k
  end.

(** The rows of a session as the builder reads them. *)
Definition stored (d : store) (pk : nat) : list ChatMessage :=
  order_by_timestamp (filter_session pk (messages d)).

Definition row (pk : nat) (question answer : string) (t : Z) : ChatMessage :=
  {| session := pk; user_message := question; ai_response := answer;
     timestamp := inject_Z t; response_time := inject_Z 1; tokens_used := 2 |}.

Definition one_message : store :=
  {| sessions := []; messages := [row 1 "hi" "hello" 0] |}.

(** [recent] is the last [n] turns of [history], or all of it when it
    has [n] or fewer. *)
Definition last_turns (n : nat) (history recent : list turn) : Prop :=
  exists older,
    history = older ++ recent /\ length recent = Nat.min n (length history).

(** The contents of attempt [k] as the design document words them. *)
Definition context_spec (k : nat) (history : list turn) (user_message : string)
    (ctx : list turn) : Prop :=
  match k with
  | 0 => ctx = history ++ [user_turn user_message]
  | 1 => exists recent,
           last_turns 8 history recent /\ ctx = recent ++ [user_turn user_message]
  | 2 => exists recent,
           last_turns 4 history recent /\ ctx = recent ++ [user_turn user_message]
  | 3 => ctx = [user_turn ("Previous conversation context: "
                           +:+ Py.str_of_nat (length history / 2)
                           +:+ " messages exchanged."
                           +:+ String Py.newline (String Py.newline "Current question: ")
                           +:+ user_message)]
  | _ => ctx = [user_turn user_message]
  end.

(** An upstream that answers the [n]-th generation call with the [n]-th
    entry of a script, probes with a greeting, and draws the jitter 1. *)
Definition scripted (script : list outcome) : env :=
  {| GEMINI_API_KEY := Some "test-key";
     configure := fun _ => None;
     probe := fun _ _ => Text "Hello";
     generate := fun n _ _ => nth n script (Fails (Exception "script exhausted"));
     uniform := fun _ => inject_Z 1 |}.

(** An upstream on which no candidate model answers its probe. *)
Definition no_model : env :=
  {| GEMINI_API_KEY := Some "test-key";
     configure := fun _ => None;
     probe := fun _ _ => Fails (Exception "connection refused");
     generate := fun _ _ _ => Fails (Exception "connection refused");
     uniform := fun _ => inject_Z 1 |}.

Definition ready : client :=
  {| initialized := true; working_model := Some "gemini-1.5-flash";
     calls := []; probes := ["gemini-1.5-flash"]; sleeps := [] |}.

Definition two_turns : list turn := [user_turn "hi"; model_turn "hello"].

(** The history the endpoint hands to the completion client. *)
Definition chat_history (st : app) (req : request) (a : ambient) : list turn :=
  let '(chat_session, d, _) := get_or_create_session (db st) req a in
  build_conversation_context d (cs_pk chat_session) 4.

Definition CANNED : list string :=
  [MSG_QUOTA; MSG_AUTH; MSG_DEMAND; MSG_TEMPORARY].

(** The process after start-up on an upstream where no probe succeeds. *)
Definition fresh_app : app :=
  {| the_cache := ∅; db := {| sessions := []; messages := [] |};
     gemini_handler := BulletproofGeminiHandler no_model |}.

(** The process after start-up on a scripted upstream: see
    [ready_is_constructed]. *)
Definition primed_app : app :=
  {| the_cache := ∅; db := {| sessions := []; messages := [] |};
     gemini_handler := ready |}.

Definition noon : ambient :=
  {| now := inject_Z 1000; start_time := inject_Z 1000;
     end_time := inject_Z 1002; tz_now := inject_Z 1000;
     uuid4 := "0f8fad5b-d9cb-469f-a165-70867728950e" |}.

(** ** Vocabulary of the further properties *)

(** [c in s] for a single character. *)
Fixpoint occurs (c : ascii) (s : string) : bool :=
  match s with
  | EmptyString => false
  | String a r => Ascii.eqb a c || occurs c r
  end.

(** What [html.escape] makes of one character. *)
Definition escape_char (c : ascii) : string :=
  if Ascii.eqb c "&"%char then "&amp;"
  else if Ascii.eqb c "<"%char then "&lt;"
  else if Ascii.eqb c ">"%char then "&gt;"
  else if Ascii.eqb c Py.dquote then "&quot;"
  else if Ascii.eqb c Py.squote then "&#x27;"
  else String c EmptyString.

(** The characters [html.escape] rewrites. *)
Definition MARKUP : list ascii :=
  ["&"%char; "<"%char; ">"%char; Py.dquote; Py.squote].

(** No character of [cs] occurs in [s]. *)
Definition free_of (cs : list ascii) (s : string) : Prop :=
  forall c, In c cs -> occurs c s = false.

(** The clock values of the admitted ones among successive checks of one
    client at the clock values [times]. *)
Fixpoint admitted_times (c : gmap string cache_entry) (req : request)
    (times : list Q) (max_requests window : Z) : list Q :=
  match times with
  | [] => []
  | t :: rest =>
      let (ok, c') := rate_limit_check c req t max_requests window in
      if ok then t :: admitted_times c' req rest max_requests window
      else admitted_times c' req rest max_requests window
  end.

(** From clock value [t0] on, what a check keeps of the store of the client
    is what it would keep of the admitted clock values [adm]. *)
Definition tracks (c : gmap string cache_entry) (key : string) (window : Z)
    (adm : list Q) (t0 : Q) : Prop :=
  forall t, (t0 <= t)%Q ->
    in_window t window (cache_get c key t []) = in_window t window adm.

(** The verdict of [test_model] on the [n]-th probe of the process. *)
Definition probe_ok (E : env) (n : nat) (model_name : string) : bool :=
  match probe E n model_name with
  | Text text => has_text text
  | Fails _ => false
  end.

(** The sum of a list of delays. *)
Fixpoint Qsum (l : list Q) : Q :=
  match l with
  | [] => 0%Q
  | x :: r => (x + Qsum r)%Q
  end.

(** The longest the loop can sleep from attempt [attempt] on with
    [remaining] iterations to go, when no jitter exceeds 3/2. *)
Fixpoint backoff_budget (remaining attempt max_attempts : nat) : Q :=
  match remaining with
  | 0 => 0%Q
  | S remaining' =>
      ((if Nat.ltb attempt (max_attempts - 1)
        then inject_Z (Z.of_nat ((attempt + 1) * 2)) + (3 # 2)
        else 0)
       + backoff_budget remaining' (S attempt) max_attempts)%Q
  end.

(** An upstream whose every generation call raises the same error. *)
Definition always_failing (e : exn) : env :=
  {| GEMINI_API_KEY := Some "test-key";
     configure := fun _ => None;
     probe := fun _ _ => Text "Hello";
     generate := fun _ _ _ => Fails e;
     uniform := fun _ => inject_Z 1 |}.

(** An upstream without API key. *)
Definition no_key : env :=
  {| GEMINI_API_KEY := None;
     configure := fun _ => None;
     probe := fun _ _ => Text "Hello";
     generate := fun _ _ _ => Text "Hello";
     uniform := fun _ => inject_Z 1 |}.

(** An upstream whose first candidate model fails its probe and whose
    second one answers. *)
Definition second_model_only : env :=
  {| GEMINI_API_KEY := Some "test-key";
     configure := fun _ => None;
     probe := fun n _ => match n with
                         | 0 => Fails (Exception "404 model not found")
                         | _ => Text "Hello"
                         end;
     generate := fun _ _ _ => Text "Hello";
     uniform := fun _ => inject_Z 1 |}.

(** The delay slept after a retryable error on attempt [k], with the
    jitter of draw number [n]. *)
Definition delay_of (E : env) (k n : nat) : Q :=
  (inject_Z (Z.of_nat ((k + 1) * 2)) + uniform E n)%Q.

(** An upstream whose every generation call returns the same text. *)
Definition always_saying (text : string) : env :=
  {| GEMINI_API_KEY := Some "test-key";
     configure := fun _ => None;
     probe := fun _ _ => Text "Hello";
     generate := fun _ _ _ => Text text;
     uniform := fun _ => inject_Z 1 |}.

(** ** Sessions, titles and the history endpoint *)

(** [s[:n]] *)
Fixpoint str_prefix (n : nat) (s : string) : string :=
  match n, s with
  | S k, String c r => String c (str_prefix k r)
  | _, _ => EmptyString
  end.

(** The session table is read in [Meta.ordering = ['-updated_at']]:
    latest update first, rows of equal update time in insertion order. *)
Fixpoint insert_by_updated (s : ChatSession) (l : list ChatSession)
    : list ChatSession :=
  match l with
  | [] => [s]
  | x :: r =>
      if Qltb (cs_updated_at x) (cs_updated_at s) then s :: l
      else x :: insert_by_updated s r
  end.

Definition order_by_updated_desc (l : list ChatSession) : list ChatSession :=
  fold_left (fun acc s => insert_by_updated s acc) l [].

(** One item of the [history] list of the history endpoint. *)
Record history_item : Type := {
  hi_session_id : string;
  hi_title : string;
  hi_created_at : string;
  hi_updated_at : string;
  hi_message_count : nat;
  hi_is_current : bool
}.

(** The body of the answer of [new_chat]. *)
Record NewChat : Type := {
  nc_status : nat;
  nc_success : bool;
  nc_message : string;
  nc_session_id : string
}.

Section Models.
(** The [title] column of the session table, by primary key, and
    [datetime.isoformat]. *)
Variable title_of : nat -> string.
Variable isoformat : Q -> string.

(** [ChatSession.get_title] *)
Definition get_title (d : store) (s : ChatSession) : string :=
  let title := title_of (cs_pk s) in
  if negb (Nat.eqb (String.length title) 0) then title
  else
    match order_by_timestamp (filter_session (cs_pk s) (messages d)) with
    | first_message :: _ =>
        if Nat.ltb 50 (String.length (user_message first_message))
        then str_prefix 50 (user_message first_message) +:+ "..."
        else user_message first_message
    | [] => "New Conversation"
    end.

(** [ChatSession.message_count] *)
Definition message_count (d : store) (s : ChatSession) : nat :=
  length (filter_session (cs_pk s) (messages d)).

(** The sessions the history endpoint lists:
    [ChatSession.objects.filter(is_active=True)[:20]]. *)
Definition listed_sessions (d : store) : list ChatSession :=
  firstn 20 (order_by_updated_desc (List.filter cs_is_active (sessions d))).

Definition history_item_of (d : store) (req : request) (s : ChatSession)
    : history_item :=
  {| hi_session_id := cs_session_id s;
     hi_title := get_title d s;
     hi_created_at := isoformat (cs_created_at s);
     hi_updated_at := isoformat (cs_updated_at s);
     hi_message_count := message_count d s;
     hi_is_current :=
       match current_chat_session req with
       | Some token => String.eqb token (cs_session_id s)
       | None => false
       end |}.

(** [get_conversation_history(request)]: the [history] list of its
    answer.  The store operations are taken to succeed. *)
Definition get_conversation_history (d : store) (req : request)
    : list history_item :=
  map (history_item_of d req) (listed_sessions d).

End Models.

(** [new_chat(request)]: the answer, the store and the token of the
    cookie session afterwards.  The store operations are taken to
    succeed. *)
Definition new_chat (d : store) (req : request) (a : ambient)
    : NewChat * store * option string :=
  let chat_session :=
    {| cs_pk := next_pk (sessions d); cs_session_id := uuid4 a;
       cs_user := req_user req; cs_created_at := tz_now a;
       cs_updated_at := tz_now a; cs_is_active := true |} in
  ({| nc_status := 200; nc_success := true;
      nc_message := "New chat session started";
      nc_session_id := cs_session_id chat_session |},
   {| sessions := sessions d ++ [chat_session]; messages := messages d |},
   Some (cs_session_id chat_session)).

(** The request a client sends next, with the token it was handed. *)
Definition with_token (req : request) (token : option string) : request :=
  {| REMOTE_ADDR := REMOTE_ADDR req; req_body := req_body req;
     current_chat_session := token; req_user := req_user req |}.

(** Primary keys are distinct and every message belongs to a session of
    the table. *)
Definition consistent (d : store) : Prop :=
  NoDup (map cs_pk (sessions d))
  /\ forall m, In m (messages d) ->
       In (session m) (map cs_pk (sessions d)).

(** The session identifier [sid] is not in use. *)
Definition unused (sid : string) (d : store) : Prop :=
  forall s, In s (sessions d) -> cs_session_id s <> sid.

Definition latest_first (l : list ChatSession) : Prop :=
  StronglySorted (fun a b => (cs_updated_at b <= cs_updated_at a)%Q) l.

Definition empty_store : store := {| sessions := []; messages := [] |}.

Definition no_title (pk : nat) : string := EmptyString.

(** * Properties *)

(** ** Strings *)

Lemma length_zero_iff_empty (s : string) :
  Nat.eqb (String.length s) 0 = true <-> s = EmptyString.
Proof.
  destruct s as [|c r]; simpl; split; intro H; try reflexivity; discriminate.
Qed.

Lemma strip_empty : Py.strip EmptyString = EmptyString.
Proof. reflexivity. Qed.

Lemma rstrip_idempotent (s : string) : Py.rstrip (Py.rstrip s) = Py.rstrip s.
Proof.
  induction s as [|c r IH]; simpl; [reflexivity|].
  destruct (Py.rstrip r) as [|c' r'] eqn:Hr.
  - destruct (Py.is_space c) eqn:Hc; simpl; [reflexivity|].
    rewrite Hc. reflexivity.
  - simpl. simpl in IH. rewrite IH. reflexivity.
Qed.

Lemma lstrip_head (s : string) :
  Py.lstrip s = EmptyString \/
  exists c r, Py.lstrip s = String c r /\ Py.is_space c = false.
Proof.
  induction s as [|c r IH]; simpl; [left; reflexivity|].
  destruct (Py.is_space c) eqn:Hc; [exact IH|].
  right. exists c, r. split; [reflexivity | exact Hc].
Qed.

Lemma rstrip_keeps_head (c : ascii) (r : string) :
  Py.is_space c = false -> exists r', Py.rstrip (String c r) = String c r'.
Proof.
  intro Hc. simpl. destruct (Py.rstrip r) as [|c' r'].
  - rewrite Hc. exists EmptyString. reflexivity.
  - exists (String c' r'). reflexivity.
Qed.

Lemma strip_idempotent (s : string) : Py.strip (Py.strip s) = Py.strip s.
Proof.
  unfold Py.strip.
  destruct (lstrip_head s) as [He | (c & r & He & Hc)]; rewrite He.
  - reflexivity.
  - destruct (rstrip_keeps_head c r Hc) as [r' Hr'].
    assert (Hl : Py.lstrip (Py.rstrip (String c r)) = Py.rstrip (String c r)).
    { rewrite Hr'. simpl. rewrite Hc. reflexivity. }
    rewrite Hl. apply rstrip_idempotent.
Qed.

Lemma has_text_strip (t : string) :
  has_text t = true <-> Py.strip t <> EmptyString.
Proof.
  unfold has_text. split.
  - intros H He. rewrite He in H. simpl in H.
    rewrite andb_false_r in H. discriminate.
  - intro Hne. destruct t as [|c r]; [exfalso; apply Hne; reflexivity|].
    destruct (Py.strip (String c r)) as [|c' r'] eqn:Hs; [congruence|].
    reflexivity.
Qed.

(** ** Input validator *)

Lemma sanitize_input_blank (s : string) :
  Py.strip s = EmptyString -> sanitize_input s = Raise EmptyInput.
Proof.
  intro H. unfold sanitize_input. rewrite H. simpl.
  rewrite orb_true_r. reflexivity.
Qed.

Lemma sanitize_input_long (s : string) :
  Py.strip s <> EmptyString -> 1200 < String.length s ->
  sanitize_input s = Raise TooLong.
Proof.
  intros Hne Hlen. unfold sanitize_input.
  assert (H1 : Nat.eqb (String.length s) 0 = false) by (apply Nat.eqb_neq; lia).
  assert (H2 : Nat.eqb (String.length (Py.strip s)) 0 = false).
  { destruct (Nat.eqb (String.length (Py.strip s)) 0) eqn:H0; [|reflexivity].
    apply length_zero_iff_empty in H0. contradiction. }
  rewrite H1, H2. simpl.
  assert (H3 : Nat.ltb 1200 (String.length s) = true) by (apply Nat.ltb_lt; lia).
  rewrite H3. reflexivity.
Qed.

(** C5, as the validator implements it: an input that is blank after
    trimming fails with [EmptyInput], whatever its length; an input longer
    than 1200 characters that is not blank after trimming fails with
    [TooLong]. *)
Theorem sanitize_input_errors (s : string) :
  (Py.strip s = EmptyString -> sanitize_input s = Raise EmptyInput) /\
  (Py.strip s <> EmptyString -> 1200 < String.length s ->
   sanitize_input s = Raise TooLong).
Proof.
  split; [apply sanitize_input_blank | apply sanitize_input_long].
Qed.

Lemma sanitize_input_errors_witness :
  sanitize_input "   " = Raise EmptyInput /\
  sanitize_input (replicate_char 1201 "a") = Raise TooLong.
Proof.
  split.
  - apply (proj1 (sanitize_input_errors "   ")). reflexivity.
  - apply (proj2 (sanitize_input_errors (replicate_char 1201 "a"))).
    + vm_compute. discriminate.
    + apply Nat.ltb_lt. vm_compute. reflexivity.
Defined.

(** C5 as worded fails on 1201 spaces: the input is longer than the
    maximum, and the validator reports [EmptyInput], not [TooLong]. *)
Lemma sanitize_input_long_blank :
  1200 < String.length (replicate_char 1201 " ") /\
  sanitize_input (replicate_char 1201 " ") = Raise EmptyInput /\
  sanitize_input (replicate_char 1201 " ") <> Raise TooLong.
Proof.
  split; [apply Nat.ltb_lt; vm_compute; reflexivity|].
  split; [vm_compute; reflexivity | vm_compute; discriminate].
Qed.

(** ** Rate limiter *)

Lemma Qltb_lt (x y : Q) : Qltb x y = true <-> (x < y)%Q.
Proof.
  unfold Qltb. rewrite negb_true_iff. split.
  - intro H. destruct (Qlt_le_dec x y) as [Hlt | Hle]; [exact Hlt|].
    apply Qle_bool_iff in Hle. congruence.
  - intro H. destruct (Qle_bool y x) eqn:Hb; [|reflexivity].
    apply Qle_bool_iff in Hb. lra.
Qed.

Lemma Qltb_ge (x y : Q) : Qltb x y = false <-> (y <= x)%Q.
Proof.
  unfold Qltb. rewrite negb_false_iff. apply Qle_bool_iff.
Qed.

Lemma filter_all_kept {A : Type} (f : A -> bool) (l : list A) :
  (forall x, In x l -> f x = true) -> List.filter f l = l.
Proof.
  induction l as [|a l IH]; intro H; simpl; [reflexivity|].
  rewrite (H a (or_introl eq_refl)). f_equal.
  apply IH. intros x Hx. apply H. right. exact Hx.
Qed.

Lemma in_window_app_recent (now : Q) (window : Z) (old recent : list Q) :
  (forall x, In x recent -> (now - x < inject_Z window)%Q) ->
  in_window now window (old ++ recent) = in_window now window old ++ recent.
Proof.
  intro H. unfold in_window. rewrite List.filter_app. f_equal.
  apply filter_all_kept. intros x Hx. apply Qltb_lt. apply H. exact Hx.
Qed.

Lemma rate_limit_check_eq (c : gmap string cache_entry) (req : request)
    (t : Q) (max_requests window : Z) :
  rate_limit_check c req t max_requests window =
  let kept := in_window t window (cache_get c (cache_key_of req) t []) in
  if (max_requests <=? Z.of_nat (length kept))%Z then (false, c)
  else (true, cache_set c (cache_key_of req) (kept ++ [t]) window t).
Proof. reflexivity. Qed.

(** C10: a rejected request leaves the cache as it was, so the stored
    list of the client and its expiry are untouched; the cache changes
    only when the request is admitted. *)
Theorem rate_limit_reject_no_write (c c' : gmap string cache_entry)
    (req : request) (t : Q) (max_requests window : Z) (verdict : bool) :
  rate_limit_check c req t max_requests window = (verdict, c') ->
  (verdict = false -> c' = c /\ c' !! cache_key_of req = c !! cache_key_of req)
  /\ (c' <> c -> verdict = true).
Proof.
  rewrite rate_limit_check_eq. cbv zeta.
  destruct (max_requests <=? _)%Z; intro H; inversion H; subst; split.
  - intros _. split; reflexivity.
  - intro Hne. contradiction.
  - intro Hd. discriminate.
  - intros _. reflexivity.
Qed.

(** The check of one client leaves the entries of the others alone. *)
Lemma rate_limit_check_other_key (c : gmap string cache_entry)
    (req : request) (t : Q) (max_requests window : Z) (key : string) :
  key <> cache_key_of req ->
  snd (rate_limit_check c req t max_requests window) !! key = c !! key.
Proof.
  intro Hne. rewrite rate_limit_check_eq. cbv zeta.
  destruct (max_requests <=? _)%Z; simpl; [reflexivity|].
  unfold cache_set. apply lookup_insert_ne. congruence.
Qed.

Section Run.
Variables (req : request) (max_requests window : Z) (T : Q).
Hypothesis window_pos : (0 < window)%Z.

Lemma recorded_get (c : gmap string cache_entry) (p : list Q) (t : Q) :
  recorded c (cache_key_of req) window p ->
  (forall x, In x p -> trailing T window x) -> (t <= T)%Q ->
  exists old, cache_get c (cache_key_of req) t [] = old ++ p.
Proof.
  intros [-> | (old & p' & last & Hp & Hc)] Hrec Ht.
  - exists (cache_get c (cache_key_of req) t []). rewrite app_nil_r. reflexivity.
  - exists old. unfold cache_get. rewrite Hc. simpl.
    assert (Hl : trailing T window last).
    { apply Hrec. rewrite Hp. apply in_or_app. right. left. reflexivity. }
    destruct Hl as [_ Hl].
    assert (Hlt : Qltb t (last + inject_Z window) = true)
      by (apply Qltb_lt; lra).
    rewrite Hlt. reflexivity.
Qed.

Lemma admitted_run_recorded (times : list Q) :
  forall (c c' : gmap string cache_entry) (p : list Q),
    recorded c (cache_key_of req) window p ->
    (forall x, In x p -> trailing T window x) ->
    (forall x, In x times -> trailing T window x) ->
    admitted_run c req times max_requests window = Some c' ->
    recorded c' (cache_key_of req) window (p ++ times).
Proof.
  induction times as [|t rest IH]; intros c c' p Hinv Hp Hts Hrun.
  - simpl in Hrun. inversion Hrun; subst. rewrite app_nil_r. exact Hinv.
  - simpl in Hrun. rewrite rate_limit_check_eq in Hrun. cbv zeta in Hrun.
    assert (Ht : trailing T window t) by (apply Hts; left; reflexivity).
    destruct (recorded_get c p t Hinv Hp (proj1 Ht)) as [old Hget].
    rewrite Hget in Hrun.
    rewrite in_window_app_recent in Hrun.
    2:{ intros x Hx. destruct (Hp x Hx) as [_ Hx2]. destruct Ht as [Ht1 _]. lra. }
    destruct (max_requests <=? _)%Z; [discriminate|].
    replace (p ++ t :: rest) with ((p ++ [t]) ++ rest)
      by (rewrite <- app_assoc; reflexivity).
    eapply IH; [| | | exact Hrun].
    + right. exists (in_window t window old), p, t. split; [reflexivity|].
      unfold cache_set.
      assert (Hz : (window =? 0)%Z = false) by (apply Z.eqb_neq; lia).
      rewrite Hz. rewrite lookup_insert_eq. rewrite <- app_assoc. reflexivity.
    + intros x Hx. apply in_app_or in Hx. destruct Hx as [Hx | [<- | []]].
      * apply Hp. exact Hx.
      * exact Ht.
    + intros x Hx. apply Hts. right. exact Hx.
Qed.

(** After a run of admitted requests that all lie in the window
    trailing [T], a request at [T] finds every one of them. *)
Lemma admitted_run_kept (times : list Q) (c c' : gmap string cache_entry) :
  (forall x, In x times -> trailing T window x) ->
  admitted_run c req times max_requests window = Some c' ->
  exists old,
    in_window T window (cache_get c' (cache_key_of req) T []) = old ++ times.
Proof.
  intros Hts Hrun.
  assert (Hinv : recorded c' (cache_key_of req) window ([] ++ times)).
  { eapply admitted_run_recorded; [left; reflexivity | | exact Hts | exact Hrun].
    intros x []. }
  simpl in Hinv.
  destruct (recorded_get c' times T Hinv Hts) as [old Hget]; [lra|].
  rewrite Hget. rewrite in_window_app_recent.
  - eexists. reflexivity.
  - intros x Hx. apply (Hts x Hx).
Qed.

Lemma admitted_run_reject (times : list Q) (c c' : gmap string cache_entry) :
  (forall x, In x times -> trailing T window x) ->
  (max_requests <= Z.of_nat (length times))%Z ->
  admitted_run c req times max_requests window = Some c' ->
  rate_limit_check c' req T max_requests window = (false, c').
Proof.
  intros Hts Hlen Hrun.
  destruct (admitted_run_kept times c c' Hts Hrun) as [old Hk].
  rewrite rate_limit_check_eq. cbv zeta. rewrite Hk.
  assert (Hle : (max_requests <=? Z.of_nat (length (old ++ times)))%Z = true).
  { apply Z.leb_le. rewrite length_app. lia. }
  rewrite Hle. reflexivity.
Qed.

End Run.

Lemma recorded_expired (c : gmap string cache_entry) (req : request)
    (window : Z) (p : list Q) (last t : Q) :
  recorded c (cache_key_of req) window (p ++ [last]) ->
  (inject_Z window <= t - last)%Q ->
  cache_get c (cache_key_of req) t [] = [].
Proof.
  intros [Hnil | (old & p' & last' & Hp & Hc)] Ht.
  - destruct p; discriminate.
  - apply app_inj_tail in Hp. destruct Hp as [_ <-].
    unfold cache_get. rewrite Hc. simpl.
    assert (Hge : Qltb t (last + inject_Z window) = false)
      by (apply Qltb_ge; lra).
    rewrite Hge. reflexivity.
Qed.

Lemma rate_limit_check_rejected_429 (E : env) (st : app) (req : request)
    (a : ambient) :
  rate_limit_check (the_cache st) req (now a) 6 60 = (false, the_cache st) ->
  status (fst (fst (chat_api E st req a))) = 429
  /\ the_cache (snd (fst (chat_api E st req a))) = the_cache st.
Proof.
  intro H. unfold chat_api. rewrite H. simpl. split; reflexivity.
Qed.

Lemma in_window_In (t : Q) (window : Z) (l : list Q) (x : Q) :
  In x (in_window t window l) -> In x l /\ (t - x < inject_Z window)%Q.
Proof.
  unfold in_window. intro H. apply filter_In in H. destruct H as [Hin Hlt].
  split; [exact Hin | apply Qltb_lt; exact Hlt].
Qed.

Lemma in_window_later (t t' : Q) (window : Z) (l : list Q) :
  (t <= t')%Q ->
  in_window t' window (in_window t window l) = in_window t' window l.
Proof.
  intro Hle. unfold in_window. induction l as [|x l IH]; [reflexivity|].
  simpl. destruct (Qltb (t - x) (inject_Z window)) eqn:H1.
  - simpl. rewrite IH. reflexivity.
  - rewrite IH. destruct (Qltb (t' - x) (inject_Z window)) eqn:H2; [|reflexivity].
    apply Qltb_ge in H1. apply Qltb_lt in H2. lra.
Qed.

Lemma in_window_aged (t : Q) (window : Z) (l : list Q) :
  (forall x, In x l -> (inject_Z window <= t - x)%Q) ->
  in_window t window l = [].
Proof.
  intro H. unfold in_window. induction l as [|x l IH]; [reflexivity|].
  simpl. assert (Hx : Qltb (t - x) (inject_Z window) = false).
  { apply Qltb_ge. apply H. left. reflexivity. }
  rewrite Hx. apply IH. intros y Hy. apply H. right. exact Hy.
Qed.

Lemma in_window_app (t : Q) (window : Z) (a b : list Q) :
  in_window t window (a ++ b) = in_window t window a ++ in_window t window b.
Proof. unfold in_window. apply List.filter_app. Qed.

Lemma tracks_admit (c : gmap string cache_entry) (req : request)
    (window max_requests : Z) (adm : list Q) (t0 t : Q) :
  (0 < window)%Z ->
  tracks c (cache_key_of req) window adm t0 ->
  (forall x, In x adm -> (x <= t)%Q) ->
  (t0 <= t)%Q ->
  let kept := in_window t window (cache_get c (cache_key_of req) t []) in
  tracks (cache_set c (cache_key_of req) (kept ++ [t]) window t)
         (cache_key_of req) window (adm ++ [t]) t.
Proof.
  intros Hw Htr Hadm Ht kept t' Ht'.
  assert (Hwq : (0 < inject_Z window)%Q).
  { change 0%Q with (inject_Z 0). rewrite <- Zlt_Qlt. exact Hw. }
  assert (Hz : (window =? 0)%Z = false) by (apply Z.eqb_neq; lia).
  unfold cache_get, cache_set. rewrite Hz, lookup_insert_eq. simpl.
  destruct (Qltb t' (t + inject_Z window)) eqn:Hlive.
  - apply Qltb_lt in Hlive. subst kept. rewrite (Htr t Ht).
    rewrite !in_window_app, (in_window_later t t' window adm Ht'). reflexivity.
  - apply Qltb_ge in Hlive. symmetry. apply in_window_aged.
    intros x Hx. apply in_app_or in Hx. destruct Hx as [Hx | [<- | []]].
    + pose proof (Hadm x Hx). lra.
    + lra.
Qed.

Lemma in_window_drops (t : Q) (window : Z) (l : list Q) (x : Q) :
  In x l -> (inject_Z window <= t - x)%Q ->
  length (in_window t window l) < length l.
Proof.
  unfold in_window. intros Hin Hx.
  induction l as [|y l IH]; [destruct Hin|]. simpl.
  assert (Hle : length (List.filter
                          (fun req_time => Qltb (t - req_time) (inject_Z window)) l)
                <= length l) by apply List.filter_length_le.
  destruct Hin as [-> | Hin].
  - assert (Hd : Qltb (t - x) (inject_Z window) = false)
      by (apply Qltb_ge; exact Hx).
    rewrite Hd. lia.
  - specialize (IH Hin).
    destruct (Qltb (t - y) (inject_Z window)); simpl; lia.
Qed.

(** After a run of admitted checks at clock values that do not go back,
    what a later check keeps of the store is what the age filter keeps of
    the admitted clock values. *)
Lemma admitted_run_tracks (req : request) (max_requests window : Z)
    (times : list Q) :
  (0 < window)%Z ->
  forall (c c' : gmap string cache_entry) (adm : list Q) (t0 : Q),
    tracks c (cache_key_of req) window adm t0 ->
    (forall x, In x adm -> (x <= t0)%Q) ->
    StronglySorted Qle times ->
    (forall x, In x times -> (t0 <= x)%Q) ->
    admitted_run c req times max_requests window = Some c' ->
    forall t, (t0 <= t)%Q -> (forall x, In x times -> (x <= t)%Q) ->
      in_window t window (cache_get c' (cache_key_of req) t [])
      = in_window t window (adm ++ times).
Proof.
  intro Hw. induction times as [|t1 rest IH];
    intros c c' adm t0 Htr Hadm Hsorted Hge Hrun t Ht Hle.
  - simpl in Hrun. inversion Hrun; subst c'. rewrite app_nil_r.
    apply Htr. exact Ht.
  - assert (Ht1 : (t0 <= t1)%Q) by (apply Hge; left; reflexivity).
    inversion Hsorted as [|? ? Hrest Hall]; subst.
    simpl in Hrun. rewrite rate_limit_check_eq in Hrun. cbv zeta in Hrun.
    destruct (max_requests <=? _)%Z; [discriminate|]. simpl in Hrun.
    replace (adm ++ t1 :: rest) with ((adm ++ [t1]) ++ rest)
      by (rewrite <- app_assoc; reflexivity).
    apply (IH (cache_set c (cache_key_of req)
                 (in_window t1 window (cache_get c (cache_key_of req) t1 [])
                  ++ [t1]) window t1)
              c' (adm ++ [t1]) t1).
    + apply (tracks_admit c req window max_requests adm t0 t1); try assumption.
      intros x Hx. pose proof (Hadm x Hx). lra.
    + intros x Hx. apply in_app_or in Hx. destruct Hx as [Hx | [<- | []]].
      * pose proof (Hadm x Hx). lra.
      * lra.
    + exact Hrest.
    + intros x Hx. exact (proj1 (List.Forall_forall _ _) Hall x Hx).
    + exact Hrun.
    + apply Hle. left. reflexivity.
    + intros x Hx. apply Hle. right. exact Hx.
Qed.

(** C7: with limit 6 and window 60, after six admitted requests of one
    client that all lie in the 60 seconds trailing a seventh, the seventh
    is rejected, the cache (and so the stored list) is left as it was, and
    the endpoint answers 429.  The stored list ends with the six clock
    values and expires 60 seconds after the last; while it is live, a
    later check keeps of it exactly the timestamps less than 60 seconds
    old, and once it has expired the check is admitted and stores the
    new timestamp alone.  For a client that started without an entry, at
    clock values that do not go back, a later check keeps exactly those of
    the six that are less than 60 seconds old: as soon as one of the six
    is 60 seconds old it is evicted, the check is admitted, and the
    stored list is the remaining ones followed by the new timestamp. *)
Theorem rate_limit_seventh_rejected (c c6 : gmap string cache_entry)
    (req : request) (times : list Q) (t7 : Q) :
  length times = 6 ->
  (forall x, In x times -> (x <= t7 /\ t7 - x < 60)%Q) ->
  admitted_run c req times 6 60 = Some c6 ->
  rate_limit_check c6 req t7 6 60 = (false, c6)
  /\ (forall (E : env) (st : app) (a : ambient),
        the_cache st = c6 -> now a = t7 ->
        status (fst (fst (chat_api E st req a))) = 429
        /\ the_cache (snd (fst (chat_api E st req a))) = c6)
  /\ (forall t8 : Q,
        (forall x, In x times -> (60 <= t8 - x)%Q) ->
        rate_limit_check c6 req t8 6 60 =
        (true, cache_set c6 (cache_key_of req) [t8] 60 t8))
  /\ (exists old earlier last,
        times = earlier ++ [last]
        /\ c6 !! cache_key_of req =
             Some {| ce_value := old ++ times;
                     ce_expires := (last + 60)%Q |}
        /\ (forall t8 : Q, (t8 < last + 60)%Q ->
              rate_limit_check c6 req t8 6 60 =
              (if (6 <=? Z.of_nat (length (in_window t8 60 (old ++ times))))%Z
               then (false, c6)
               else (true, cache_set c6 (cache_key_of req)
                             (in_window t8 60 (old ++ times) ++ [t8]) 60 t8)))
        /\ (forall t8 : Q, (last + 60 <= t8)%Q ->
              rate_limit_check c6 req t8 6 60 =
              (true, cache_set c6 (cache_key_of req) [t8] 60 t8)))
  /\ (c !! cache_key_of req = None ->
      StronglySorted Qle times ->
      forall t8 : Q,
        (forall x, In x times -> (x <= t8)%Q) ->
        rate_limit_check c6 req t8 6 60 =
        (if (6 <=? Z.of_nat (length (in_window t8 60 times)))%Z
         then (false, c6)
         else (true, cache_set c6 (cache_key_of req)
                       (in_window t8 60 times ++ [t8]) 60 t8))
        /\ ((exists x, In x times /\ (60 <= t8 - x)%Q) ->
            rate_limit_check c6 req t8 6 60 =
            (true, cache_set c6 (cache_key_of req)
                     (in_window t8 60 times ++ [t8]) 60 t8)
            /\ forall y, In y (in_window t8 60 times) ->
                 In y times /\ (t8 - y < 60)%Q)).
Proof.
  intros Hlen Hts Hrun.
  assert (Hrej : rate_limit_check c6 req t7 6 60 = (false, c6)).
  { apply (admitted_run_reject req 6 60 t7 ltac:(lia) times c c6).
    - intros x Hx. exact (Hts x Hx).
    - rewrite Hlen. lia.
    - exact Hrun. }
  assert (Hinv : recorded c6 (cache_key_of req) 60 ([] ++ times)).
  { apply (admitted_run_recorded req 6 60 t7 ltac:(lia) times c c6 []).
    - left. reflexivity.
    - intros x [].
    - intros x Hx. exact (Hts x Hx).
    - exact Hrun. }
  simpl in Hinv.
  destruct (exists_last (l := times)) as (p & last & Hp).
  { intro Hn. rewrite Hn in Hlen. discriminate. }
  split; [exact Hrej|]. split; [|split; [|split]].
  - intros E st a Hc Ht. subst c6 t7.
    apply rate_limit_check_rejected_429. exact Hrej.
  - intros t8 Haged. rewrite Hp in Hinv.
    assert (Hlast : (60 <= t8 - last)%Q).
    { apply Haged. rewrite Hp. apply in_or_app. right. left. reflexivity. }
    rewrite rate_limit_check_eq. cbv zeta.
    rewrite (recorded_expired c6 req 60 p last t8 Hinv Hlast).
    reflexivity.
  - destruct Hinv as [Hnil | (old & p' & last' & Hp' & Hc)].
    { rewrite Hnil in Hlen. discriminate. }
    exists old, p', last'. split; [exact Hp'|].
    change (inject_Z 60) with 60%Q in Hc. split; [exact Hc|]. split.
    + intros t8 Hlive. rewrite rate_limit_check_eq. cbv zeta.
      unfold cache_get. rewrite Hc. simpl.
      assert (Hl : Qltb t8 (last' + 60) = true) by (apply Qltb_lt; exact Hlive).
      rewrite Hl. reflexivity.
    + intros t8 Hdead. rewrite rate_limit_check_eq. cbv zeta.
      unfold cache_get. rewrite Hc. simpl.
      assert (Hl : Qltb t8 (last' + 60) = false) by (apply Qltb_ge; exact Hdead).
      rewrite Hl. reflexivity.
  - intros Hnone Hsorted t8 Hlater.
    assert (Hkept : in_window t8 60 (cache_get c6 (cache_key_of req) t8 [])
                    = in_window t8 60 times).
    { destruct times as [|t1 rest] eqn:Htimes; [discriminate|].
      apply (admitted_run_tracks req 6 60 (t1 :: rest) ltac:(lia) c c6 [] t1).
      - intros t' _. unfold cache_get. rewrite Hnone. reflexivity.
      - intros x [].
      - exact Hsorted.
      - intros x [<- | Hx]; [lra|].
        inversion Hsorted as [|? ? _ Hall]; subst.
        exact (proj1 (List.Forall_forall _ _) Hall x Hx).
      - exact Hrun.
      - apply Hlater. left. reflexivity.
      - exact Hlater. }
    assert (Heq : rate_limit_check c6 req t8 6 60 =
                  (if (6 <=? Z.of_nat (length (in_window t8 60 times)))%Z
                   then (false, c6)
                   else (true, cache_set c6 (cache_key_of req)
                                 (in_window t8 60 times ++ [t8]) 60 t8))).
    { rewrite rate_limit_check_eq. cbv zeta. rewrite Hkept. reflexivity. }
    split; [exact Heq|].
    intros (x & Hx & Hold). split.
    + rewrite Heq.
      pose proof (in_window_drops t8 60 times x Hx Hold) as Hdrop.
      assert (Hb : (6 <=? Z.of_nat (length (in_window t8 60 times)))%Z = false).
      { apply Z.leb_gt. rewrite Hlen in Hdrop. lia. }
      rewrite Hb. reflexivity.
    + intros y Hy. apply (in_window_In t8 60 times y Hy).
Qed.

Lemma rate_limit_seventh_rejected_witness :
  rate_limit_check after_six client_a (inject_Z 30) 6 60 = (false, after_six)
  /\ rate_limit_check after_six client_a (inject_Z 90) 6 60 =
     (true, cache_set after_six (cache_key_of client_a) [inject_Z 90] 60 (inject_Z 90))
  /\ rate_limit_check after_six client_a (inject_Z 62) 6 60 =
     (true, cache_set after_six (cache_key_of client_a)
              [inject_Z 5; inject_Z 10; inject_Z 15; inject_Z 20; inject_Z 25;
               inject_Z 62] 60 (inject_Z 62)).
Proof.
  assert (Hin : forall (P : Q -> Prop),
             P (inject_Z 0) -> P (inject_Z 5) -> P (inject_Z 10) ->
             P (inject_Z 15) -> P (inject_Z 20) -> P (inject_Z 25) ->
             forall x, In x six_times -> P x).
  { intros P H0 H1 H2 H3 H4 H5 x Hx. simpl in Hx.
    destruct Hx as [<- | [<- | [<- | [<- | [<- | [<- | []]]]]]]; assumption. }
  destruct (rate_limit_seventh_rejected ∅ after_six client_a six_times (inject_Z 30))
    as (Hrej & _ & Hres & _ & Hfresh).
  - reflexivity.
  - apply Hin; split; vm_compute; congruence.
  - vm_compute. reflexivity.
  - split; [exact Hrej|]. split.
    + apply Hres. apply Hin; vm_compute; congruence.
    + destruct (Hfresh eq_refl) with (t8 := inject_Z 62) as [_ Hevict].
      * repeat (constructor; [|repeat (constructor; [vm_compute; discriminate|]);
                               constructor]).
        constructor.
      * apply Hin; vm_compute; congruence.
      * destruct Hevict as [Hadm _].
        -- exists (inject_Z 0). split; [left; reflexivity|].
           vm_compute. congruence.
        -- exact Hadm.
Defined.

Lemma rate_limit_reject_no_write_witness :
  after_six = after_six
  /\ after_six !! cache_key_of client_a = after_six !! cache_key_of client_a.
Proof.
  apply (proj1 (rate_limit_reject_no_write after_six after_six client_a
                  (inject_Z 30) 6 60 false ltac:(vm_compute; reflexivity))).
  reflexivity.
Defined.

(** ** Context builder *)

Lemma insert_by_timestamp_perm (m : ChatMessage) (l : list ChatMessage) :
  Permutation (m :: l) (insert_by_timestamp m l).
Proof.
  induction l as [|x r IH]; simpl; [apply Permutation_refl|].
  destruct (Qltb (timestamp m) (timestamp x)); [apply Permutation_refl|].
  eapply perm_trans; [apply perm_swap|]. apply perm_skip. exact IH.
Qed.

Lemma insert_by_timestamp_ascending (m : ChatMessage) (l : list ChatMessage) :
  ascending l -> ascending (insert_by_timestamp m l).
Proof.
  unfold ascending. induction l as [|x r IH]; intro Hs; simpl.
  - repeat constructor.
  - destruct (Qltb (timestamp m) (timestamp x)) eqn:Hc.
    + constructor; [exact Hs|]. constructor.
      apply Qltb_lt in Hc. lra.
    + apply Qltb_ge in Hc. inversion Hs as [|? ? Hr Hhd]; subst.
      constructor; [apply IH; exact Hr|].
      destruct r as [|y r']; simpl.
      * constructor. exact Hc.
      * destruct (Qltb (timestamp m) (timestamp y)).
        -- constructor. exact Hc.
        -- inversion Hhd; subst. constructor. assumption.
Qed.

Lemma order_by_timestamp_acc (l acc : list ChatMessage) :
  ascending acc ->
  let out := fold_left (fun acc m => insert_by_timestamp m acc) l acc in
  ascending out /\ Permutation (acc ++ l) out.
Proof.
  revert acc. induction l as [|m r IH]; intros acc Ha; simpl.
  - split; [exact Ha|]. rewrite app_nil_r. apply Permutation_refl.
  - destruct (IH (insert_by_timestamp m acc)
                (insert_by_timestamp_ascending m acc Ha)) as [Hs Hp].
    split; [exact Hs|].
    eapply perm_trans; [|exact Hp].
    eapply perm_trans; [apply Permutation_sym, Permutation_middle|].
    change (m :: acc ++ r) with ((m :: acc) ++ r).
    apply Permutation_app_tail. apply insert_by_timestamp_perm.
Qed.

Lemma order_by_timestamp_sorts (l : list ChatMessage) :
  ascending (order_by_timestamp l) /\ Permutation l (order_by_timestamp l).
Proof.
  apply (order_by_timestamp_acc l []). constructor.
Qed.

Lemma order_by_timestamp_length (l : list ChatMessage) :
  length (order_by_timestamp l) = length l.
Proof.
  symmetry. apply Permutation_length. apply order_by_timestamp_sorts.
Qed.

Lemma expand_flat_map (l : list ChatMessage) :
  expand l =
  flat_map (fun msg => [user_turn (user_message msg); model_turn (ai_response msg)]) l.
Proof.
  induction l as [|m r IH]; simpl; [reflexivity|]. rewrite IH. reflexivity.
Qed.

Lemma expand_length (l : list ChatMessage) : length (expand l) = 2 * length l.
Proof.
  induction l as [|m r IH]; simpl; [reflexivity|]. rewrite IH. lia.
Qed.

Lemma expand_roles (l : list ChatMessage) :
  map role (expand l) = alternating (length l).
Proof.
  induction l as [|m r IH]; simpl; [reflexivity|]. rewrite IH. reflexivity.
Qed.

Lemma keep_last_positive {A : Type} (k : Z) (l : list A) :
  (1 <= k)%Z ->
  keep_last k l = skipn (length l - Nat.min (length l) (Z.to_nat k)) l.
Proof.
  intro Hk. unfold keep_last, slice_from.
  destruct (k <? Z.of_nat (length l))%Z eqn:Hlt.
  - apply Z.ltb_lt in Hlt.
    assert (Hneg : (- k <? 0)%Z = true) by (apply Z.ltb_lt; lia).
    rewrite Hneg. f_equal. lia.
  - apply Z.ltb_ge in Hlt.
    replace (length l - Nat.min (length l) (Z.to_nat k)) with 0 by lia.
    reflexivity.
Qed.

(** The context builder for a bound of at least one: with [n] stored
    messages it keeps the last [min n m] of them in ascending timestamp
    order, and gives two turns for each, user then model. *)
Lemma build_conversation_context_window (d : store) (pk : nat) (m : Z) :
  (1 <= m)%Z ->
  let n := length (filter_session pk (messages d)) in
  let k := Nat.min n (Z.to_nat m) in
  ascending (stored d pk)
  /\ Permutation (filter_session pk (messages d)) (stored d pk)
  /\ exists older kept,
       stored d pk = older ++ kept /\ length kept = k
       /\ build_conversation_context d pk m =
          flat_map (fun msg => [user_turn (user_message msg);
                                model_turn (ai_response msg)]) kept
       /\ length (build_conversation_context d pk m) = 2 * k
       /\ map role (build_conversation_context d pk m) = alternating k.
Proof.
  intros Hm n k.
  destruct (order_by_timestamp_sorts (filter_session pk (messages d))) as [Hs Hp].
  split; [exact Hs|]. split; [exact Hp|].
  assert (Hn : length (stored d pk) = n) by apply order_by_timestamp_length.
  exists (firstn (n - k) (stored d pk)), (skipn (n - k) (stored d pk)).
  assert (Hb : build_conversation_context d pk m
               = expand (skipn (n - k) (stored d pk))).
  { unfold build_conversation_context. fold (stored d pk).
    rewrite (keep_last_positive m _ Hm). rewrite Hn. reflexivity. }
  assert (Hk : length (skipn (n - k) (stored d pk)) = k).
  { rewrite length_skipn, Hn. subst k. lia. }
  split; [symmetry; apply firstn_skipn|].
  split; [exact Hk|].
  rewrite Hb. split; [apply expand_flat_map|].
  split; [rewrite expand_length, Hk; reflexivity|].
  rewrite expand_roles, Hk. reflexivity.
Qed.

Lemma keep_last_zero {A : Type} (l : list A) : keep_last 0 l = l.
Proof.
  unfold keep_last, slice_from.
  destruct (0 <? Z.of_nat (length l))%Z; [|reflexivity].
  change (- 0)%Z with 0%Z. change (0 <? 0)%Z with false. cbv iota.
  rewrite Z.min_l by lia. reflexivity.
Qed.

(** C6 at the bound 0: a session with one stored message gives two
    turns, where the last [min 1 0] messages would give none.  The slice
    [messages[-0:]] is the whole list. *)
Theorem build_conversation_context_zero_bound :
  length (filter_session 1 (messages one_message)) = 1
  /\ build_conversation_context one_message 1 0 =
     [user_turn "hi"; model_turn "hello"]
  /\ length (build_conversation_context one_message 1 0) <> 2 * Nat.min 1 0.
Proof.
  split; [reflexivity|]. split; [reflexivity|]. simpl. discriminate.
Qed.

Lemma build_conversation_context_zero (d : store) (pk : nat) :
  build_conversation_context d pk 0 = expand (stored d pk).
Proof.
  unfold build_conversation_context. rewrite keep_last_zero. reflexivity.
Qed.

(** Ten stored messages and the bound 4 of the endpoint: eight turns. *)
Lemma build_conversation_context_ten_four (d : store) (pk : nat) :
  length (filter_session pk (messages d)) = 10 ->
  length (build_conversation_context d pk 4) = 8.
Proof.
  intro H.
  destruct (build_conversation_context_window d pk 4 ltac:(lia))
    as (_ & _ & older & kept & _ & _ & _ & Hlen & _).
  rewrite Hlen, H. reflexivity.
Qed.

(** ** Completion client *)

Lemma keep_last_turns (n : nat) (history : list turn) :
  1 <= n -> last_turns n history (keep_last (Z.of_nat n) history).
Proof.
  intro Hn. rewrite keep_last_positive by lia. rewrite Nat2Z.id.
  exists (firstn (length history - Nat.min (length history) n) history).
  split; [symmetry; apply firstn_skipn|].
  rewrite length_skipn. lia.
Qed.

Lemma context_for_spec (k : nat) (history : list turn) (user_message : string) :
  context_spec k history user_message (context_for k history user_message).
Proof.
  destruct k as [|[|[|[|k]]]]; simpl; try reflexivity.
  - exists (keep_last 8 history). split; [|reflexivity].
    apply (keep_last_turns 8). lia.
  - exists (keep_last 4 history). split; [|reflexivity].
    apply (keep_last_turns 4). lia.
Qed.

Section ClientFacts.
Variable E : env.

Lemma test_model_calls (h : client) (name : string) :
  calls (snd (test_model E h name)) = calls h
  /\ sleeps (snd (test_model E h name)) = sleeps h.
Proof.
  unfold test_model. destruct (probe E _ name); simpl; split; reflexivity.
Qed.

Lemma find_model_calls (names : list string) :
  forall h, calls (snd (find_model E names h)) = calls h
            /\ sleeps (snd (find_model E names h)) = sleeps h.
Proof.
  induction names as [|name rest IH]; intro h; simpl; [split; reflexivity|].
  destruct (test_model E h name) as [ok h1] eqn:Ht.
  pose proof (test_model_calls h name) as [Hc Hs]. rewrite Ht in Hc, Hs.
  simpl in Hc, Hs. destruct ok; simpl.
  - split; assumption.
  - destruct (IH h1) as [Hc1 Hs1]. rewrite Hc1, Hs1. split; assumption.
Qed.

Lemma initialize_calls (h : client) :
  calls (snd (initialize E h)) = calls h
  /\ sleeps (snd (initialize E h)) = sleeps h.
Proof.
  unfold initialize. destruct (GEMINI_API_KEY E) as [key|]; [|split; reflexivity].
  destruct (Nat.eqb _ 0); [split; reflexivity|].
  destruct (configure E key); [split; reflexivity|].
  apply find_model_calls.
Qed.

Lemma attempts_S (remaining attempt max_attempts : nat) (msgs : list turn)
    (um : string) (h : client) :
  attempts E (S remaining) attempt max_attempts msgs um h =
  let context := context_for attempt msgs um in
  let model := default EmptyString (working_model h) in
  let h1 := record_call h model context in
  match generate E (length (calls h)) model context with
  | Text text =>
      if has_text text then (Ok (Py.strip text), h1)
      else attempts E remaining (S attempt) max_attempts msgs um h1
  | Fails e =>
      if non_retryable (Py.lower (exn_msg e)) then (Raise e, h1)
      else attempts E remaining (S attempt) max_attempts msgs um
             (if Nat.ltb attempt (max_attempts - 1)
              then backoff E h1 attempt else h1)
  end.
Proof. reflexivity. Qed.

(** The loop issues its calls in attempt order, each with the context
    of its attempt, on the model the handler selected. *)
Lemma attempts_calls (remaining : nat) :
  forall (attempt max_attempts : nat) (msgs : list turn) (um : string)
         (h h' : client) (r : result string),
    attempts E remaining attempt max_attempts msgs um h = (r, h') ->
    exists n,
      n <= remaining
      /\ calls h' = calls h ++
           map (fun k => (default EmptyString (working_model h), context_for k msgs um))
               (seq attempt n).
Proof.
  induction remaining as [|rem IH]; intros attempt mx msgs um h h' r H.
  - simpl in H. inversion H; subst. exists 0. simpl.
    rewrite app_nil_r. split; [lia | reflexivity].
  - rewrite attempts_S in H. cbv zeta in H.
    destruct (generate E _ _ _) as [text | e].
    + destruct (has_text text).
      * inversion H; subst. exists 1. simpl. split; [lia | reflexivity].
      * apply IH in H. destruct H as (n & Hn & Hc). exists (S n).
        split; [lia|]. rewrite Hc. simpl. rewrite <- app_assoc. reflexivity.
    + destruct (non_retryable _).
      * inversion H; subst. exists 1. simpl. split; [lia | reflexivity].
      * apply IH in H. destruct H as (n & Hn & Hc). exists (S n).
        split; [lia|]. rewrite Hc.
        destruct (Nat.ltb attempt (mx - 1)); simpl;
          rewrite <- app_assoc; reflexivity.
Qed.

End ClientFacts.

Lemma nth_error_seq_value (a n k x : nat) :
  nth_error (seq a n) k = Some x -> x = a + k.
Proof.
  revert a k. induction n as [|n IH]; intros a k H.
  - destruct k; discriminate.
  - destruct k as [|k]; simpl in H.
    + inversion H. lia.
    + apply IH in H. lia.
Qed.

Lemma blank_has_no_text (t : string) : Py.strip t = EmptyString -> has_text t = false.
Proof.
  intro H. destruct (has_text t) eqn:Ht; [|reflexivity].
  apply has_text_strip in Ht. contradiction.
Qed.

Section GenerateResponse.
Variable E : env.

Lemma generate_response_initialized (h : client) (msgs : list turn)
    (um : string) (max_attempts : nat) :
  initialized h = true ->
  generate_response E h msgs um max_attempts =
  attempts E max_attempts 0 max_attempts msgs um h.
Proof.
  intro Hi. unfold generate_response. rewrite Hi. simpl. rewrite Hi. reflexivity.
Qed.

(** C1: the [k]-th generation call that [generate_response] issues
    carries the context of attempt [k]: the full history and the new
    user turn for attempt 0; the last 8 turns (all of them when there are
    8 or fewer) and the new user turn for attempt 1; the last 4 turns
    (all when fewer) and the new user turn for attempt 2; for attempt 3 a
    single user turn that reports half the number of turns as
    "N messages exchanged" and then the user message; from attempt 4 on,
    the user message alone. *)
Theorem generate_response_contexts (h h' : client) (msgs : list turn)
    (um : string) (max_attempts : nat) (r : result string)
    (k : nat) (model : string) (ctx : list turn) :
  generate_response E h msgs um max_attempts = (r, h') ->
  nth_error (calls h') (length (calls h) + k) = Some (model, ctx) ->
  context_spec k msgs um ctx.
Proof.
  unfold generate_response.
  set (h1 := if initialized h then h else snd (initialize E h)).
  assert (Hc1 : calls h1 = calls h).
  { subst h1. destruct (initialized h); [reflexivity|].
    apply initialize_calls. }
  destruct (negb (initialized h1)); intros H Hnth.
  - inversion H; subst h'. rewrite Hc1 in Hnth.
    assert (Hnone : nth_error (calls h) (length (calls h) + k) = None)
      by (apply nth_error_None; lia).
    congruence.
  - apply attempts_calls in H. destruct H as (n & _ & Hc).
    rewrite Hc, Hc1 in Hnth.
    rewrite nth_error_app2 in Hnth by lia.
    replace (length (calls h) + k - length (calls h)) with k in Hnth by lia.
    rewrite nth_error_map in Hnth.
    destruct (nth_error (seq 0 n) k) as [j|] eqn:Hj; [|discriminate].
    apply nth_error_seq_value in Hj. simpl in Hj, Hnth. subst j.
    inversion Hnth; subst. apply context_for_spec.
Qed.

(** C2: on an initialized client, when the first two generation calls
    return empty or whitespace-only text and the third returns text that
    is not blank, [generate_response] returns the third text trimmed and
    has issued exactly those three calls. *)
Theorem generate_response_third_attempt (h : client) (msgs : list turn)
    (um : string) (max_attempts : nat) (t1 t2 t3 : string) :
  initialized h = true ->
  3 <= max_attempts ->
  let model := default EmptyString (working_model h) in
  let n := length (calls h) in
  generate E n model (context_for 0 msgs um) = Text t1 -> Py.strip t1 = EmptyString ->
  generate E (n + 1) model (context_for 1 msgs um) = Text t2 -> Py.strip t2 = EmptyString ->
  generate E (n + 2) model (context_for 2 msgs um) = Text t3 -> Py.strip t3 <> EmptyString ->
  exists h',
    generate_response E h msgs um max_attempts = (Ok (Py.strip t3), h')
    /\ calls h' = calls h ++ [(model, context_for 0 msgs um);
                              (model, context_for 1 msgs um);
                              (model, context_for 2 msgs um)]
    /\ length (calls h') = length (calls h) + 3.
Proof.
  intros Hi Hmax model n H1 B1 H2 B2 H3 B3.
  destruct max_attempts as [|[|[|mx]]]; try lia.
  rewrite generate_response_initialized by exact Hi.
  rewrite attempts_S. cbv zeta. fold model n.
  rewrite H1, (blank_has_no_text t1 B1).
  rewrite attempts_S. cbv zeta.
  change (working_model (record_call h model (context_for 0 msgs um)))
    with (working_model h). fold model.
  change (calls (record_call h model (context_for 0 msgs um)))
    with (calls h ++ [(model, context_for 0 msgs um)]).
  rewrite length_app. simpl length. fold n.
  rewrite H2, (blank_has_no_text t2 B2).
  rewrite attempts_S. cbv zeta.
  match goal with
  | |- context [record_call (record_call h ?m ?c0) ?m' ?c1] =>
      change (working_model (record_call (record_call h m c0) m' c1))
        with (working_model h);
      change (calls (record_call (record_call h m c0) m' c1))
        with ((calls h ++ [(m, c0)]) ++ [(m', c1)])
  end.
  fold model. rewrite !length_app. simpl length. fold n.
  replace (n + 1 + 1) with (n + 2) by lia.
  rewrite H3.
  assert (Ht : has_text t3 = true) by (apply has_text_strip; exact B3).
  rewrite Ht. eexists. split; [reflexivity|].
  simpl calls. rewrite <- !app_assoc. simpl. split; [reflexivity|].
  rewrite length_app. simpl. reflexivity.
Qed.

(** C3: on an initialized client, when the first generation call
    raises an error whose lower-cased message contains quota, billing,
    key or auth, [generate_response] raises that error after this one
    call, having slept not at all. *)
Theorem generate_response_fatal (h : client) (msgs : list turn)
    (um : string) (max_attempts : nat) (e : exn) :
  initialized h = true ->
  1 <= max_attempts ->
  let model := default EmptyString (working_model h) in
  generate E (length (calls h)) model (context_for 0 msgs um) = Fails e ->
  (exists keyword,
      In keyword ["quota"; "billing"; "key"; "auth"]
      /\ Py.contains keyword (Py.lower (exn_msg e)) = true) ->
  exists h',
    generate_response E h msgs um max_attempts = (Raise e, h')
    /\ calls h' = calls h ++ [(model, context_for 0 msgs um)]
    /\ length (calls h') = length (calls h) + 1
    /\ sleeps h' = sleeps h.
Proof.
  intros Hi Hmax model Hg (keyword & Hin & Hk).
  destruct max_attempts as [|mx]; [lia|].
  rewrite generate_response_initialized by exact Hi.
  rewrite attempts_S. cbv zeta. fold model. rewrite Hg.
  assert (Hf : non_retryable (Py.lower (exn_msg e)) = true).
  { unfold non_retryable. apply existsb_exists. exists keyword.
    split; assumption. }
  rewrite Hf. eexists. split; [reflexivity|].
  simpl. split; [reflexivity|]. split; [|reflexivity].
  rewrite length_app. reflexivity.
Qed.

(** A retryable error on an attempt that is not the last one is
    followed by one sleep of twice the attempt number plus the jitter
    drawn; on the last attempt by none. *)
Lemma attempts_retryable_error (remaining attempt max_attempts : nat)
    (msgs : list turn) (um : string) (h : client) (e : exn) :
  let model := default EmptyString (working_model h) in
  let context := context_for attempt msgs um in
  generate E (length (calls h)) model context = Fails e ->
  non_retryable (Py.lower (exn_msg e)) = false ->
  let h1 := record_call h model context in
  (attempt < max_attempts - 1 ->
   attempts E (S remaining) attempt max_attempts msgs um h =
   attempts E remaining (S attempt) max_attempts msgs um (backoff E h1 attempt)
   /\ sleeps (backoff E h1 attempt) =
      sleeps h ++ [(inject_Z (Z.of_nat ((attempt + 1) * 2))
                    + uniform E (length (sleeps h)))%Q])
  /\ (max_attempts - 1 <= attempt ->
      attempts E (S remaining) attempt max_attempts msgs um h =
      attempts E remaining (S attempt) max_attempts msgs um h1
      /\ sleeps h1 = sleeps h).
Proof.
  intros model context Hg Hf h1. split; intro Hlt.
  - rewrite attempts_S. cbv zeta. fold model context. rewrite Hg, Hf.
    assert (Hb : Nat.ltb attempt (max_attempts - 1) = true)
      by (apply Nat.ltb_lt; exact Hlt).
    rewrite Hb. split; reflexivity.
  - rewrite attempts_S. cbv zeta. fold model context. rewrite Hg, Hf.
    assert (Hb : Nat.ltb attempt (max_attempts - 1) = false)
      by (apply Nat.ltb_ge; exact Hlt).
    rewrite Hb. split; reflexivity.
Qed.

(** An empty or whitespace-only response is followed by the next
    attempt at once: no sleep is taken, on any attempt. *)
Lemma attempts_blank_response (remaining attempt max_attempts : nat)
    (msgs : list turn) (um : string) (h : client) (t : string) :
  let model := default EmptyString (working_model h) in
  let context := context_for attempt msgs um in
  generate E (length (calls h)) model context = Text t ->
  Py.strip t = EmptyString ->
  attempts E (S remaining) attempt max_attempts msgs um h =
  attempts E remaining (S attempt) max_attempts msgs um
    (record_call h model context)
  /\ sleeps (record_call h model context) = sleeps h.
Proof.
  intros model context Hg Hb.
  rewrite attempts_S. cbv zeta. fold model context.
  rewrite Hg, (blank_has_no_text t Hb). split; reflexivity.
Qed.

(** A normal return of the loop is the trimmed text of its last call,
    and that text is not blank. *)
Lemma attempts_ok (remaining : nat) :
  forall (attempt max_attempts : nat) (msgs : list turn) (um : string)
         (h h' : client) (s : string),
    attempts E remaining attempt max_attempts msgs um h = (Ok s, h') ->
    exists earlier model ctx t,
      calls h' = earlier ++ [(model, ctx)]
      /\ generate E (length earlier) model ctx = Text t
      /\ has_text t = true
      /\ s = Py.strip t.
Proof.
  induction remaining as [|rem IH]; intros attempt mx msgs um h h' s H.
  - simpl in H. discriminate.
  - rewrite attempts_S in H. cbv zeta in H.
    destruct (generate E _ _ _) as [text | e] eqn:Hg.
    + destruct (has_text text) eqn:Ht.
      * inversion H; subst.
        exists (calls h), (default EmptyString (working_model h)),
          (context_for attempt msgs um), text.
        repeat split; try reflexivity; assumption.
      * apply IH in H. exact H.
    + destruct (non_retryable _); [discriminate|].
      apply IH in H. exact H.
Qed.

End GenerateResponse.

(** The handler the constructor gives on a scripted upstream. *)
Lemma ready_is_constructed (script : list outcome) :
  BulletproofGeminiHandler (scripted script) = ready.
Proof. reflexivity. Qed.

Lemma generate_response_contexts_witness :
  context_spec 1 two_turns "Hi" (two_turns ++ [user_turn "Hi"]).
Proof.
  apply (generate_response_contexts
           (scripted [Text EmptyString; Text "fine"]) ready
           (snd (generate_response (scripted [Text EmptyString; Text "fine"]) ready
                   two_turns "Hi" 5))
           two_turns "Hi" 5 (Ok "fine") 1 "gemini-1.5-flash").
  - reflexivity.
  - reflexivity.
Defined.

Lemma generate_response_third_attempt_witness :
  exists h',
    generate_response (scripted [Text EmptyString; Text "  "; Text " fine "]) ready
      two_turns "Hi" 5 = (Ok "fine", h')
    /\ length (calls h') = 3.
Proof.
  destruct (generate_response_third_attempt
              (scripted [Text EmptyString; Text "  "; Text " fine "]) ready
              two_turns "Hi" 5 EmptyString "  " " fine ")
    as (h' & Hr & _ & Hlen).
  - reflexivity.
  - lia.
  - reflexivity.
  - reflexivity.
  - reflexivity.
  - reflexivity.
  - reflexivity.
  - vm_compute. discriminate.
  - exists h'. split; [exact Hr | exact Hlen].
Defined.

Lemma generate_response_fatal_witness :
  exists h',
    generate_response (scripted [Fails (Exception "429 Quota exceeded")]) ready
      two_turns "Hi" 5 = (Raise (Exception "429 Quota exceeded"), h')
    /\ length (calls h') = 1
    /\ sleeps h' = [].
Proof.
  destruct (generate_response_fatal
              (scripted [Fails (Exception "429 Quota exceeded")]) ready
              two_turns "Hi" 5 (Exception "429 Quota exceeded"))
    as (h' & Hr & _ & Hlen & Hs).
  - reflexivity.
  - lia.
  - reflexivity.
  - exists "quota". split; [left; reflexivity | reflexivity].
  - exists h'. split; [exact Hr|]. split; [exact Hlen | exact Hs].
Defined.

(** C4 at an empty response: the upstream answers attempt 0 with
    whitespace and attempt 1 with text; the second call follows the first
    with no sleep in between, although attempt 0 was not the last one.
    With an error in place of the whitespace, one sleep of
    (0+1)*2 seconds plus the jitter is taken. *)
Theorem generate_response_blank_no_sleep :
  let blank := generate_response (scripted [Text "  "; Text " hello "])
                 ready [] "Hi" 5 in
  let error := generate_response
                 (scripted [Fails (Exception "timeout"); Text " hello "])
                 ready [] "Hi" 5 in
  fst blank = Ok "hello"
  /\ length (calls (snd blank)) = 2
  /\ sleeps (snd blank) = []
  /\ fst error = Ok "hello"
  /\ length (calls (snd error)) = 2
  /\ sleeps (snd error) = [(inject_Z 2 + inject_Z 1)%Q].
Proof.
  cbv zeta. repeat split; reflexivity.
Qed.

(** ** Request handler *)

Lemma get_or_create_session_messages (d : store) (req : request) (a : ambient) :
  messages (snd (fst (get_or_create_session d req a))) = messages d.
Proof.
  unfold get_or_create_session.
  destruct (current_chat_session req) as [sid|]; [|reflexivity].
  destruct (Nat.eqb (String.length sid) 0); [reflexivity|].
  destruct (find _ (sessions d)); reflexivity.
Qed.

Lemma user_msg_for_canned (e : exn) : In (user_msg_for e) CANNED.
Proof.
  unfold user_msg_for, CANNED.
  destruct (_ || _); [left; reflexivity|].
  destruct (_ || _); [right; left; reflexivity|].
  destruct (Py.contains "unavailable" _).
  - right; right; left; reflexivity.
  - right; right; right; left; reflexivity.
Qed.

(** The message sent depends on the error only through the five keyword
    tests. *)
Lemma user_msg_for_class (e1 e2 : exn) :
  (forall keyword,
      In keyword ["quota"; "billing"; "key"; "auth"; "unavailable"] ->
      Py.contains keyword (Py.lower (exn_msg e1)) =
      Py.contains keyword (Py.lower (exn_msg e2))) ->
  user_msg_for e1 = user_msg_for e2.
Proof.
  intro H. unfold user_msg_for.
  rewrite (H "quota"), (H "billing"), (H "key"), (H "auth"), (H "unavailable");
    simpl; auto 10.
Qed.

Section EndpointFacts.
Variable E : env.

Lemma generate_response_ok (h h' : client) (msgs : list turn) (um : string)
    (max_attempts : nat) (s : string) :
  generate_response E h msgs um max_attempts = (Ok s, h') ->
  exists earlier model ctx t,
    calls h' = earlier ++ [(model, ctx)]
    /\ generate E (length earlier) model ctx = Text t
    /\ has_text t = true
    /\ s = Py.strip t.
Proof.
  unfold generate_response.
  destruct (negb (initialized _)); [discriminate|].
  apply attempts_ok.
Qed.

(** C9: a normal return of [generate_response] is the text of its last
    generation call with the surrounding whitespace stripped, it is not
    empty and stripping it again changes nothing; the endpoint adds at
    most one row to the messages, and the reply stored in that row is
    such a string. *)
Theorem generate_response_returns_trimmed :
  (forall (h h' : client) (msgs : list turn) (um : string)
          (max_attempts : nat) (s : string),
      generate_response E h msgs um max_attempts = (Ok s, h') ->
      s <> EmptyString /\ Py.strip s = s
      /\ exists earlier model ctx t,
           calls h' = earlier ++ [(model, ctx)]
           /\ generate E (length earlier) model ctx = Text t
           /\ s = Py.strip t)
  /\ (forall (st : app) (req : request) (a : ambient),
        let st' := snd (fst (chat_api E st req a)) in
        messages (db st') = messages (db st)
        \/ exists row,
             messages (db st') = messages (db st) ++ [row]
             /\ ai_response row <> EmptyString
             /\ Py.strip (ai_response row) = ai_response row).
Proof.
  assert (Hgen : forall h h' msgs um max_attempts s,
             generate_response E h msgs um max_attempts = (Ok s, h') ->
             s <> EmptyString /\ Py.strip s = s
             /\ exists earlier model ctx t,
                  calls h' = earlier ++ [(model, ctx)]
                  /\ generate E (length earlier) model ctx = Text t
                  /\ s = Py.strip t).
  { intros h h' msgs um mx s H.
    apply generate_response_ok in H.
    destruct H as (earlier & model & ctx & t & Hc & Hg & Ht & Hs).
    subst s. split; [apply has_text_strip; exact Ht|].
    split; [apply strip_idempotent|].
    exists earlier, model, ctx, t. repeat split; assumption. }
  split; [exact Hgen|].
  intros st req a. unfold chat_api.
  destruct (rate_limit_check _ _ _ _ _) as [ok c'].
  destruct ok; simpl; [|left; reflexivity].
  destruct (req_body req) as [| |m]; simpl; try (left; reflexivity).
  destruct (Nat.eqb _ 0); simpl; [left; reflexivity|].
  destruct (sanitize_input _) as [um|e]; simpl; [|left; reflexivity].
  pose proof (get_or_create_session_messages (db st) req a) as Hm.
  destruct (get_or_create_session (db st) req a) as [[cs d] tok].
  simpl in Hm.
  destruct (generate_response E _ _ um 5) as [[s|e] h'] eqn:Hg; simpl.
  - right. eexists. split; [rewrite Hm; reflexivity|]. simpl.
    destruct (Hgen _ _ _ _ _ _ Hg) as (Hne & Hst & _). split; assumption.
  - left. exact Hm.
Qed.

(** C8, with the four messages the endpoint has: when the request is
    admitted and valid and the completion client raises, the response
    has status 503 and its error is the canned message of the keyword
    class of the failure: quota or billing, key or auth, unavailable,
    or the temporary-difficulties message otherwise. *)
Theorem chat_api_upstream_failure (st : app) (req : request) (a : ambient)
    (raw um : string) (e : exn) (h : client) :
  fst (rate_limit_check (the_cache st) req (now a) 6 60) = true ->
  req_body req = Message (Some raw) ->
  sanitize_input raw = Ok um ->
  generate_response E (gemini_handler st) (chat_history st req a) um 5
    = (Raise e, h) ->
  let resp := fst (fst (chat_api E st req a)) in
  status resp = 503
  /\ content resp = ErrorBody (user_msg_for e)
  /\ In (user_msg_for e) [MSG_QUOTA; MSG_AUTH; MSG_DEMAND; MSG_TEMPORARY].
Proof.
  intros Hadm Hbody Hsan Hgen resp.
  assert (Hraw : Nat.eqb (String.length raw) 0 = false).
  { destruct raw; [discriminate Hsan | reflexivity]. }
  subst resp. unfold chat_api. unfold chat_history in Hgen.
  destruct (rate_limit_check _ _ _ _ _) as [ok c']. simpl in Hadm. subst ok.
  simpl. rewrite Hbody. simpl. rewrite Hraw, Hsan.
  destruct (get_or_create_session (db st) req a) as [[cs d] tok].
  simpl. rewrite Hgen. simpl.
  split; [reflexivity|]. split; [reflexivity|].
  apply user_msg_for_canned.
Qed.

End EndpointFacts.

Lemma generate_response_returns_trimmed_witness :
  "fine" <> EmptyString /\ Py.strip "fine" = "fine".
Proof.
  destruct (proj1 (generate_response_returns_trimmed
                     (scripted [Text EmptyString; Text " fine "]))
              ready
              (snd (generate_response (scripted [Text EmptyString; Text " fine "]) ready
                      two_turns "Hi" 5))
              two_turns "Hi" 5 "fine") as (Hne & Hs & _).
  - reflexivity.
  - split; [exact Hne | exact Hs].
Defined.

Lemma chat_api_upstream_failure_witness :
  status (fst (fst (chat_api (scripted [Fails (Exception "429 Quota exceeded")])
                      primed_app client_a noon))) = 503
  /\ content (fst (fst (chat_api (scripted [Fails (Exception "429 Quota exceeded")])
                          primed_app client_a noon))) = ErrorBody MSG_QUOTA.
Proof.
  destruct (chat_api_upstream_failure
              (scripted [Fails (Exception "429 Quota exceeded")])
              primed_app client_a noon "Hello" "Hello"
              (Exception "429 Quota exceeded")
              (record_call ready "gemini-1.5-flash" [user_turn "Hello"]))
    as (Hs & Hc & _).
  - vm_compute. reflexivity.
  - reflexivity.
  - reflexivity.
  - reflexivity.
  - split; [exact Hs | exact Hc].
Defined.

(** C8 as worded fails when no candidate model answers its probe: the
    completion client raises its unavailable error, and the endpoint
    answers 503 with a fourth message, the high-demand one, which is none
    of the three of the claim. *)
Lemma chat_api_fourth_message :
  initialized (BulletproofGeminiHandler no_model) = false
  /\ fst (generate_response no_model (BulletproofGeminiHandler no_model)
            [] "Hello" 5) = Raise Unavailable
  /\ status (fst (fst (chat_api no_model fresh_app client_a noon))) = 503
  /\ content (fst (fst (chat_api no_model fresh_app client_a noon)))
     = ErrorBody MSG_DEMAND
  /\ ~ In MSG_DEMAND [MSG_QUOTA; MSG_AUTH; MSG_TEMPORARY].
Proof.
  split; [reflexivity|]. split; [reflexivity|].
  split; [vm_compute; reflexivity|]. split; [vm_compute; reflexivity|].
  intros [H | [H | [H | []]]]; discriminate H.
Qed.

(** * Further properties *)

(** ** Input validator: what it accepts and what it returns *)

Lemma app_cons (c : ascii) (a b : string) :
  String c a +:+ b = String c (a +:+ b).
Proof. reflexivity. Qed.

Lemma app_nil_l_string (s : string) : EmptyString +:+ s = s.
Proof. reflexivity. Qed.

Lemma app_nil_r_string (s : string) : s +:+ EmptyString = s.
Proof.
  induction s as [|c r IH]; [reflexivity|]. rewrite app_cons, IH. reflexivity.
Qed.

Lemma app_assoc_string (a b c : string) : (a +:+ b) +:+ c = a +:+ (b +:+ c).
Proof.
  induction a as [|x a IH]; [reflexivity|]. rewrite !app_cons, IH. reflexivity.
Qed.

Lemma length_app_string (a b : string) :
  String.length (a +:+ b) = String.length a + String.length b.
Proof.
  induction a as [|x a IH]; [reflexivity|]. rewrite app_cons. simpl.
  rewrite IH. reflexivity.
Qed.

Lemma occurs_app (c : ascii) (a b : string) :
  occurs c (a +:+ b) = occurs c a || occurs c b.
Proof.
  induction a as [|x a IH]; [reflexivity|]. rewrite app_cons. simpl.
  rewrite IH. apply orb_assoc.
Qed.

Lemma replace_app (c : ascii) (rep a b : string) :
  Py.replace c rep (a +:+ b) = Py.replace c rep a +:+ Py.replace c rep b.
Proof.
  induction a as [|x a IH]; [reflexivity|]. rewrite app_cons. simpl.
  rewrite IH. destruct (Ascii.eqb x c).
  - rewrite app_assoc_string. reflexivity.
  - rewrite app_cons. reflexivity.
Qed.

Lemma escape_app (a b : string) : Py.escape (a +:+ b) = Py.escape a +:+ Py.escape b.
Proof. unfold Py.escape. rewrite !replace_app. reflexivity. Qed.

Lemma escape_one (c : ascii) : Py.escape (String c EmptyString) = escape_char c.
Proof. destruct c as [[] [] [] [] [] [] [] []]; vm_compute; reflexivity. Qed.

(** The five successive replacements of [html.escape] amount to one pass
    that rewrites each character on its own. *)
Lemma escape_cons (c : ascii) (r : string) :
  Py.escape (String c r) = escape_char c +:+ Py.escape r.
Proof.
  change (String c r) with (String c EmptyString +:+ r).
  rewrite escape_app, escape_one. reflexivity.
Qed.

Lemma escape_char_free (a c : ascii) :
  In c ["<"%char; ">"%char; Py.dquote; Py.squote] ->
  occurs c (escape_char a) = false.
Proof.
  intros [<- | [<- | [<- | [<- | []]]]];
    destruct a as [[] [] [] [] [] [] [] []]; vm_compute; reflexivity.
Qed.

Lemma escape_char_length (a : ascii) : String.length (escape_char a) <= 6.
Proof.
  destruct a as [[] [] [] [] [] [] [] []]; vm_compute; lia.
Qed.

Lemma escape_free (s : string) :
  free_of ["<"%char; ">"%char; Py.dquote; Py.squote] (Py.escape s).
Proof.
  intros c Hc. induction s as [|a r IH]; [reflexivity|].
  rewrite escape_cons, occurs_app, IH, (escape_char_free a c Hc). reflexivity.
Qed.

Lemma escape_length (s : string) :
  String.length (Py.escape s) <= 6 * String.length s.
Proof.
  induction s as [|a r IH]; [simpl; lia|].
  rewrite escape_cons, length_app_string. simpl String.length.
  pose proof (escape_char_length a). lia.
Qed.

Lemma lstrip_length (s : string) : String.length (Py.lstrip s) <= String.length s.
Proof.
  induction s as [|c r IH]; simpl; [lia|].
  destruct (Py.is_space c); simpl; lia.
Qed.

Lemma rstrip_length (s : string) : String.length (Py.rstrip s) <= String.length s.
Proof.
  induction s as [|c r IH]; simpl; [lia|].
  destruct (Py.rstrip r) as [|c' r'].
  - destruct (Py.is_space c); simpl; lia.
  - simpl in *. lia.
Qed.

Lemma strip_length (s : string) : String.length (Py.strip s) <= String.length s.
Proof.
  unfold Py.strip. pose proof (rstrip_length (Py.lstrip s)).
  pose proof (lstrip_length s). lia.
Qed.

Lemma sub_tags_length (s : string) :
  forall st,
    String.length (Py.sub_tags st s) <=
    String.length s + match st with
                      | None => 0
                      | Some buf => 1 + String.length buf
                      end.
Proof.
  induction s as [|c r IH]; intro st.
  - destruct st; simpl; lia.
  - destruct st as [buf|]; simpl.
    + destruct (Ascii.eqb c ">"%char).
      * destruct buf as [|b buf']; simpl.
        -- pose proof (IH None). simpl in *. lia.
        -- pose proof (IH None). simpl in *. lia.
      * pose proof (IH (Some (buf +:+ String c EmptyString))) as H.
        cbv beta iota in H. rewrite length_app_string in H. simpl in H. lia.
    + destruct (Ascii.eqb c "<"%char).
      * pose proof (IH (Some EmptyString)). simpl in *. lia.
      * simpl. pose proof (IH None). simpl in *. lia.
Qed.

Lemma strip_nonempty_length (s : string) :
  Py.strip s <> EmptyString -> Nat.eqb (String.length s) 0 = false.
Proof.
  intro H. destruct s; [exfalso; apply H; reflexivity | reflexivity].
Qed.

Lemma sanitize_input_accepted (s : string) :
  Py.strip s <> EmptyString -> String.length s <= 1200 ->
  sanitize_input s = Ok (Py.escape (Py.strip (Py.sub_tags None s))).
Proof.
  intros Hne Hlen. unfold sanitize_input.
  rewrite (strip_nonempty_length s Hne).
  assert (H2 : Nat.eqb (String.length (Py.strip s)) 0 = false).
  { destruct (Nat.eqb (String.length (Py.strip s)) 0) eqn:H0; [|reflexivity].
    apply length_zero_iff_empty in H0. contradiction. }
  rewrite H2. simpl.
  assert (H3 : Nat.ltb 1200 (String.length s) = false) by (apply Nat.ltb_ge; lia).
  rewrite H3. reflexivity.
Qed.

Lemma sanitize_input_ok_inv (s cleaned : string) :
  sanitize_input s = Ok cleaned ->
  String.length s <= 1200
  /\ cleaned = Py.escape (Py.strip (Py.sub_tags None s)).
Proof.
  unfold sanitize_input. destruct (_ || _); [discriminate|].
  destruct (Nat.ltb 1200 (String.length s)) eqn:Hlen; [discriminate|].
  intro H. inversion H. split; [apply Nat.ltb_ge; exact Hlen | reflexivity].
Qed.

(** X1: the validator accepts an input exactly when it is not blank after
    trimming and has at most 1200 characters. *)
Theorem sanitize_input_accepts_iff (s : string) :
  (exists cleaned, sanitize_input s = Ok cleaned)
  <-> (Py.strip s <> EmptyString /\ String.length s <= 1200).
Proof.
  split.
  - intros [cleaned H]. split.
    + intro Hb. rewrite (sanitize_input_blank s Hb) in H. discriminate.
    + destruct (Py.strip s) as [|c r] eqn:Hs.
      * rewrite (sanitize_input_blank s Hs) in H. discriminate.
      * destruct (Nat.le_gt_cases (String.length s) 1200) as [Hle | Hgt]; [exact Hle|].
        rewrite sanitize_input_long in H; [discriminate | | exact Hgt].
        rewrite Hs. discriminate.
  - intros [Hne Hlen]. eexists. apply sanitize_input_accepted; assumption.
Qed.

(** X2: an accepted input comes back free of the characters [<], [>],
    double quote and single quote, and at most six times as long as the
    input, so never longer than 7200 characters. *)
Theorem sanitize_input_output_safe (s cleaned : string) :
  sanitize_input s = Ok cleaned ->
  free_of ["<"%char; ">"%char; Py.dquote; Py.squote] cleaned
  /\ String.length cleaned <= 6 * String.length s
  /\ String.length cleaned <= 6 * 1200.
Proof.
  intro H. apply sanitize_input_ok_inv in H. destruct H as [Hlen ->].
  split; [apply escape_free|].
  pose proof (escape_length (Py.strip (Py.sub_tags None s))) as H1.
  pose proof (strip_length (Py.sub_tags None s)) as H2.
  pose proof (sub_tags_length s None) as H3. simpl in H3.
  split; lia.
Qed.

Lemma sanitize_input_output_safe_witness :
  free_of ["<"%char; ">"%char; Py.dquote; Py.squote] "a &lt; b"
  /\ String.length "a &lt; b" <= 6 * String.length " <i>a</i> < b "
  /\ String.length "a &lt; b" <= 6 * 1200.
Proof.
  apply (sanitize_input_output_safe " <i>a</i> < b " "a &lt; b").
  reflexivity.
Defined.

Lemma occurs_false_cons (c a : ascii) (r : string) :
  occurs c (String a r) = false -> Ascii.eqb a c = false /\ occurs c r = false.
Proof. simpl. intro H. apply orb_false_elim in H. exact H. Qed.

Lemma sub_tags_open_no_close (s : string) :
  forall buf,
    occurs ">"%char s = false ->
    Py.sub_tags (Some buf) s = String "<"%char (buf +:+ s).
Proof.
  induction s as [|c r IH]; intros buf H.
  - simpl. rewrite app_nil_r_string. reflexivity.
  - apply occurs_false_cons in H. destruct H as [Hc Hr]. simpl. rewrite Hc.
    rewrite (IH _ Hr), app_assoc_string. reflexivity.
Qed.

Lemma sub_tags_no_close (s : string) :
  occurs ">"%char s = false -> Py.sub_tags None s = s.
Proof.
  induction s as [|c r IH]; intro H; [reflexivity|].
  apply occurs_false_cons in H. destruct H as [Hc Hr]. simpl.
  destruct (Ascii.eqb c "<"%char) eqn:Hlt.
  - apply Ascii.eqb_eq in Hlt. subst c.
    rewrite (sub_tags_open_no_close r EmptyString Hr). reflexivity.
  - rewrite (IH Hr). reflexivity.
Qed.

Lemma sub_tags_text_before (pre s : string) :
  occurs "<"%char pre = false ->
  Py.sub_tags None (pre +:+ s) = pre +:+ Py.sub_tags None s.
Proof.
  induction pre as [|c r IH]; intro H; [reflexivity|].
  apply occurs_false_cons in H. destruct H as [Hc Hr].
  rewrite !app_cons. simpl. rewrite Hc, (IH Hr). reflexivity.
Qed.

Lemma sub_tags_in_tag (body : string) :
  forall buf rest,
    occurs ">"%char body = false ->
    buf +:+ body <> EmptyString ->
    Py.sub_tags (Some buf) (body +:+ String ">"%char rest) = Py.sub_tags None rest.
Proof.
  induction body as [|c b IH]; intros buf rest Hno Hne.
  - rewrite app_nil_r_string in Hne. rewrite app_nil_l_string. simpl.
    destruct buf; [contradiction | reflexivity].
  - apply occurs_false_cons in Hno. destruct Hno as [Hc Hb].
    rewrite app_cons. simpl. rewrite Hc. apply IH; [exact Hb|].
    rewrite app_assoc_string, app_cons. destruct buf; discriminate.
Qed.

(** X3: the tag removal deletes a tag where it stands: text without [<]
    before it is kept, a [<] followed by a non-empty body without [>] and
    a [>] is dropped, and the removal goes on with what follows. *)
Theorem sub_tags_removes_tag (pre body post : string) :
  occurs "<"%char pre = false ->
  occurs ">"%char body = false ->
  body <> EmptyString ->
  Py.sub_tags None (pre +:+ String "<"%char (body +:+ String ">"%char post))
  = pre +:+ Py.sub_tags None post.
Proof.
  intros Hpre Hbody Hne. rewrite (sub_tags_text_before _ _ Hpre). f_equal.
  simpl. apply sub_tags_in_tag; [exact Hbody | exact Hne].
Qed.

Lemma sub_tags_removes_tag_witness :
  Py.sub_tags None "a <b>c" = "a " +:+ Py.sub_tags None "c".
Proof.
  apply (sub_tags_removes_tag "a " "b" "c"); [reflexivity | reflexivity | discriminate].
Defined.

Lemma sub_tags_cons_none (c : ascii) (r : string) :
  Py.sub_tags None (String c r) =
  if Ascii.eqb c "<"%char then Py.sub_tags (Some EmptyString) r
  else String c (Py.sub_tags None r).
Proof. reflexivity. Qed.

Lemma sub_tags_cons_some (buf : string) (c : ascii) (r : string) :
  Py.sub_tags (Some buf) (String c r) =
  if Ascii.eqb c ">"%char then
    match buf with
    | EmptyString => String "<"%char (String ">"%char (Py.sub_tags None r))
    | String _ _ => Py.sub_tags None r
    end
  else Py.sub_tags (Some (buf +:+ String c EmptyString)) r.
Proof. reflexivity. Qed.

Lemma sub_tags_settled (s : string) :
  forall st,
    match st with
    | None => True
    | Some buf => occurs ">"%char buf = false
    end ->
    Py.sub_tags None (Py.sub_tags st s) = Py.sub_tags st s.
Proof.
  induction s as [|c r IH]; intros st Hst.
  - destruct st as [buf|]; [|reflexivity].
    change (Py.sub_tags (Some buf) EmptyString) with (String "<"%char buf).
    rewrite sub_tags_cons_none. simpl Ascii.eqb. cbv iota.
    rewrite (sub_tags_open_no_close buf EmptyString Hst). reflexivity.
  - destruct st as [buf|].
    + rewrite sub_tags_cons_some. destruct (Ascii.eqb c ">"%char) eqn:Hc.
      * destruct buf as [|b buf'].
        -- rewrite sub_tags_cons_none. simpl Ascii.eqb. cbv iota.
           rewrite sub_tags_cons_some. simpl Ascii.eqb. cbv iota.
           rewrite (IH None I). reflexivity.
        -- apply (IH None I).
      * apply IH. rewrite occurs_app, Hst. simpl. rewrite Hc. reflexivity.
    + rewrite sub_tags_cons_none. destruct (Ascii.eqb c "<"%char) eqn:Hc.
      * apply IH. reflexivity.
      * rewrite sub_tags_cons_none, Hc, (IH None I). reflexivity.
Qed.

(** X4: the tag removal leaves nothing for a second pass to remove:
    applied to its own result it changes nothing. *)
Theorem sub_tags_idempotent (s : string) :
  Py.sub_tags None (Py.sub_tags None s) = Py.sub_tags None s.
Proof. apply (sub_tags_settled s None). exact I. Qed.

(** X5: a message that is nothing but one tag passes the validator and
    comes back as the empty string. *)
Theorem sanitize_input_tag_only (body : string) :
  body <> EmptyString ->
  occurs ">"%char body = false ->
  String.length body + 2 <= 1200 ->
  sanitize_input (String "<"%char (body +:+ ">")) = Ok EmptyString.
Proof.
  intros Hne Hno Hlen.
  rewrite sanitize_input_accepted.
  - rewrite sub_tags_cons_none. simpl Ascii.eqb. cbv iota.
    rewrite (sub_tags_in_tag body EmptyString EmptyString Hno Hne).
    reflexivity.
  - unfold Py.strip. simpl Py.lstrip.
    destruct (rstrip_keeps_head "<"%char (body +:+ ">") eq_refl) as [r' Hr].
    rewrite Hr. discriminate.
  - simpl. rewrite length_app_string. simpl. lia.
Qed.

Lemma sanitize_input_tag_only_witness :
  sanitize_input "<script>" = Ok EmptyString.
Proof.
  apply (sanitize_input_tag_only "script"); [discriminate | reflexivity |].
  simpl. lia.
Defined.

Lemma escape_plain (s : string) : free_of MARKUP s -> Py.escape s = s.
Proof.
  induction s as [|a r IH]; intro H; [reflexivity|].
  assert (Hr : free_of MARKUP r).
  { intros c Hc. apply (occurs_false_cons c a r). apply H. exact Hc. }
  assert (Ha : forall c, In c MARKUP -> Ascii.eqb a c = false).
  { intros c Hc. apply (occurs_false_cons c a r). apply H. exact Hc. }
  rewrite escape_cons, (IH Hr). unfold escape_char.
  rewrite (Ha "&"%char), (Ha "<"%char), (Ha ">"%char), (Ha Py.dquote),
    (Ha Py.squote); unfold MARKUP; simpl; auto 10.
Qed.

(** X6: a message without markup characters and without surrounding
    whitespace, not empty and within the limit, is returned as it is. *)
Theorem sanitize_input_plain (s : string) :
  free_of MARKUP s ->
  Py.strip s = s ->
  s <> EmptyString ->
  String.length s <= 1200 ->
  sanitize_input s = Ok s.
Proof.
  intros Hfree Hstrip Hne Hlen.
  rewrite sanitize_input_accepted; [| rewrite Hstrip; exact Hne | exact Hlen].
  assert (Hgt : occurs ">"%char s = false) by (apply Hfree; simpl; auto).
  rewrite (sub_tags_no_close s Hgt), Hstrip, (escape_plain s Hfree). reflexivity.
Qed.

Lemma sanitize_input_plain_witness : sanitize_input "Hello there" = Ok "Hello there".
Proof.
  apply sanitize_input_plain.
  - intros c Hc. simpl in Hc.
    destruct Hc as [<- | [<- | [<- | [<- | [<- | []]]]]]; reflexivity.
  - reflexivity.
  - discriminate.
  - simpl. lia.
Defined.

(** ** Rate limiter: what an admission stores and guarantees *)

(** X7: an admitted check stores, for one window from now, the kept
    timestamps followed by the present one; the stored list has at most
    [max_requests] entries, all of them within the window. *)
Theorem rate_limit_admitted_records (c c' : gmap string cache_entry)
    (req : request) (t : Q) (max_requests window : Z) :
  (0 < window)%Z ->
  rate_limit_check c req t max_requests window = (true, c') ->
  exists kept,
    c' !! cache_key_of req =
      Some {| ce_value := kept ++ [t];
              ce_expires := (t + inject_Z window)%Q |}
    /\ cache_get c' (cache_key_of req) t [] = kept ++ [t]
    /\ (Z.of_nat (length (kept ++ [t])) <= max_requests)%Z
    /\ (forall x, In x (kept ++ [t]) -> (t - x < inject_Z window)%Q).
Proof.
  intros Hw H. rewrite rate_limit_check_eq in H. cbv zeta in H.
  destruct (max_requests <=? _)%Z eqn:Hm; [discriminate|].
  apply Z.leb_gt in Hm. inversion H; subst c'. clear H.
  set (kept := in_window t window (cache_get c (cache_key_of req) t [])) in *.
  assert (Hz : (window =? 0)%Z = false) by (apply Z.eqb_neq; lia).
  assert (Hlook : cache_set c (cache_key_of req) (kept ++ [t]) window t
                    !! cache_key_of req
                  = Some {| ce_value := kept ++ [t];
                            ce_expires := (t + inject_Z window)%Q |}).
  { unfold cache_set. rewrite Hz. apply lookup_insert_eq. }
  exists kept. split; [exact Hlook|]. split.
  - unfold cache_get. rewrite Hlook. simpl.
    assert (Hlive : Qltb t (t + inject_Z window) = true).
    { apply Qltb_lt. assert (0 < inject_Z window)%Q.
      { change 0%Q with (inject_Z 0). rewrite <- Zlt_Qlt. exact Hw. }
      lra. }
    rewrite Hlive. reflexivity.
  - split; [rewrite length_app; simpl; lia|].
    intros x Hx. apply in_app_or in Hx. destruct Hx as [Hx | [<- | []]].
    + apply (in_window_In t window _ x Hx).
    + assert (0 < inject_Z window)%Q.
      { change 0%Q with (inject_Z 0). rewrite <- Zlt_Qlt. exact Hw. }
      lra.
Qed.

Lemma rate_limit_admitted_records_witness :
  exists kept,
    cache_get after_six (cache_key_of client_a) (inject_Z 25) []
    = kept ++ [inject_Z 25]
    /\ (Z.of_nat (length (kept ++ [inject_Z 25])) <= 6)%Z.
Proof.
  destruct (rate_limit_admitted_records
              (default ∅ (admitted_run ∅ client_a
                            [inject_Z 0; inject_Z 5; inject_Z 10; inject_Z 15;
                             inject_Z 20] 6 60))
              after_six client_a (inject_Z 25) 6 60)
    as (kept & _ & Hget & Hlen & _).
  - lia.
  - vm_compute. reflexivity.
  - exists kept. split; [exact Hget | exact Hlen].
Defined.

Lemma rate_limit_check_depends_on_entry (c1 c2 : gmap string cache_entry)
    (req : request) (t : Q) (max_requests window : Z) :
  c1 !! cache_key_of req = c2 !! cache_key_of req ->
  fst (rate_limit_check c1 req t max_requests window)
  = fst (rate_limit_check c2 req t max_requests window)
  /\ snd (rate_limit_check c1 req t max_requests window) !! cache_key_of req
     = snd (rate_limit_check c2 req t max_requests window) !! cache_key_of req.
Proof.
  intro H. rewrite !rate_limit_check_eq. cbv zeta.
  assert (Hg : cache_get c1 (cache_key_of req) t []
               = cache_get c2 (cache_key_of req) t []).
  { unfold cache_get. rewrite H. reflexivity. }
  rewrite Hg. destruct (max_requests <=? _)%Z; simpl.
  - split; [reflexivity | exact H].
  - split; [reflexivity|]. unfold cache_set. rewrite !lookup_insert_eq. reflexivity.
Qed.

(** X8: clients are limited apart: a check for one address, whatever its
    verdict, changes neither the verdict nor the stored entry of a later
    check for another address.  A request without address counts as the
    address "unknown". *)
Theorem rate_limit_clients_independent (c : gmap string cache_entry)
    (mine other : request) (t t' : Q) (max_requests window m' w' : Z) :
  default "unknown" (REMOTE_ADDR mine) <> default "unknown" (REMOTE_ADDR other) ->
  let c' := snd (rate_limit_check c other t' m' w') in
  fst (rate_limit_check c' mine t max_requests window)
  = fst (rate_limit_check c mine t max_requests window)
  /\ snd (rate_limit_check c' mine t max_requests window) !! cache_key_of mine
     = snd (rate_limit_check c mine t max_requests window) !! cache_key_of mine.
Proof.
  intros Hne c'. apply rate_limit_check_depends_on_entry.
  subst c'. apply rate_limit_check_other_key.
  unfold cache_key_of. intro Heq. apply Hne.
  exact (String.app_inj "chat_rate_limit_" _ _ Heq).
Qed.

Lemma rate_limit_clients_independent_witness :
  fst (rate_limit_check
         (snd (rate_limit_check after_six
                 {| REMOTE_ADDR := None; req_body := Unexpected;
                    current_chat_session := None; req_user := None |}
                 (inject_Z 26) 6 60))
         client_a (inject_Z 30) 6 60)
  = fst (rate_limit_check after_six client_a (inject_Z 30) 6 60).
Proof.
  apply (rate_limit_clients_independent after_six client_a
           {| REMOTE_ADDR := None; req_body := Unexpected;
              current_chat_session := None; req_user := None |}
           (inject_Z 30) (inject_Z 26) 6 60 6 60).
  discriminate.
Defined.

Lemma admitted_times_bounded (req : request) (max_requests window : Z)
    (times : list Q) :
  (0 < window)%Z ->
  forall (c : gmap string cache_entry) (adm : list Q) (t0 : Q),
    tracks c (cache_key_of req) window adm t0 ->
    (forall x, In x adm -> (x <= t0)%Q) ->
    StronglySorted Qle times ->
    (forall x, In x times -> (t0 <= x)%Q) ->
    forall pre t post,
      adm ++ admitted_times c req times max_requests window = pre ++ t :: post ->
      length adm <= length pre ->
      (Z.of_nat (length (in_window t window pre)) < max_requests)%Z.
Proof.
  intro Hw. induction times as [|t1 rest IH];
    intros c adm t0 Htr Hadm Hsorted Hge pre t post Heq Hlen.
  - simpl in Heq. rewrite app_nil_r in Heq.
    assert (Hl : length adm = length (pre ++ t :: post)) by (rewrite Heq; reflexivity).
    rewrite length_app in Hl. simpl in Hl. lia.
  - assert (Ht1 : (t0 <= t1)%Q) by (apply Hge; left; reflexivity).
    inversion Hsorted as [|? ? Hrest Hall]; subst.
    assert (Hge' : forall x, In x rest -> (t1 <= x)%Q).
    { intros x Hx. exact (proj1 (List.Forall_forall _ _) Hall x Hx). }
    assert (Hadm' : forall x, In x adm -> (x <= t1)%Q).
    { intros x Hx. pose proof (Hadm x Hx). lra. }
    simpl in Heq. rewrite rate_limit_check_eq in Heq. cbv zeta in Heq.
    pose proof (Htr t1 Ht1) as Hkept.
    destruct (max_requests <=? _)%Z eqn:Hm.
    + simpl in Heq. apply (IH c adm t1) with (post := post); try assumption.
      intros t' Ht'. apply Htr. lra.
    + apply Z.leb_gt in Hm. simpl in Heq.
      destruct (Nat.eq_dec (length pre) (length adm)) as [Hsame | Hdiff].
      * apply app_inj_1 in Heq; [| symmetry; exact Hsame].
        destruct Heq as [<- Hcons]. inversion Hcons; subst t.
        rewrite <- Hkept. exact Hm.
      * apply (IH (cache_set c (cache_key_of req)
                     (in_window t1 window (cache_get c (cache_key_of req) t1 [])
                      ++ [t1]) window t1)
                  (adm ++ [t1]) t1) with (post := post).
        -- apply (tracks_admit c req window max_requests adm t0 t1);
             assumption.
        -- intros x Hx. apply in_app_or in Hx. destruct Hx as [Hx | [<- | []]].
           ++ apply Hadm'. exact Hx.
           ++ lra.
        -- exact Hrest.
        -- exact Hge'.
        -- rewrite <- app_assoc. exact Heq.
        -- rewrite length_app. simpl. lia.
Qed.

(** X9: the limit holds over any run of checks of a client that starts
    without a stored entry, at clock values that do not go back: each
    admitted check finds fewer than [max_requests] earlier admitted ones
    within the window before it, so no window ever holds more than
    [max_requests] admitted requests. *)
Theorem rate_limit_never_exceeds (c : gmap string cache_entry) (req : request)
    (times : list Q) (max_requests window : Z) (pre post : list Q) (t : Q) :
  (0 < window)%Z ->
  c !! cache_key_of req = None ->
  StronglySorted Qle times ->
  admitted_times c req times max_requests window = pre ++ t :: post ->
  (Z.of_nat (length (in_window t window pre)) < max_requests)%Z.
Proof.
  intros Hw Hnone Hsorted Heq.
  destruct times as [|t1 rest]; [destruct pre; discriminate|].
  apply (admitted_times_bounded req max_requests window (t1 :: rest) Hw c [] t1)
    with (post := post).
  - intros t' _. unfold cache_get. rewrite Hnone. reflexivity.
  - intros x [].
  - exact Hsorted.
  - intros x [<- | Hx]; [lra|].
    inversion Hsorted as [|? ? _ Hall]; subst.
    exact (proj1 (List.Forall_forall _ _) Hall x Hx).
  - exact Heq.
  - simpl. lia.
Qed.

Lemma rate_limit_never_exceeds_witness :
  (Z.of_nat (length (in_window (inject_Z 5) 60
                       [inject_Z 0; inject_Z 1; inject_Z 2; inject_Z 3; inject_Z 4]))
   < 6)%Z.
Proof.
  apply (rate_limit_never_exceeds ∅ client_a
           [inject_Z 0; inject_Z 1; inject_Z 2; inject_Z 3; inject_Z 4;
            inject_Z 5; inject_Z 6; inject_Z 7]
           6 60
           [inject_Z 0; inject_Z 1; inject_Z 2; inject_Z 3; inject_Z 4]
           [] (inject_Z 5)).
  - lia.
  - reflexivity.
  - repeat (constructor; [|repeat (constructor; [vm_compute; discriminate|]);
                           constructor]).
    constructor.
  - vm_compute. reflexivity.
Defined.

(** ** Context builder: isolation and memory *)

(** X10: for a bound [m] of at least one, the context is built from the
    last [min n m] of the [n] rows of the session in ascending timestamp
    order: two turns for each, user then model, so [2 * min n m] turns
    and never more than [2 * m]. *)
Theorem build_conversation_context_bounded (d : store) (pk : nat) (m : Z) :
  (1 <= m)%Z ->
  let n := length (filter_session pk (messages d)) in
  let k := Nat.min n (Z.to_nat m) in
  ascending (stored d pk)
  /\ Permutation (filter_session pk (messages d)) (stored d pk)
  /\ (exists older kept,
        stored d pk = older ++ kept /\ length kept = k
        /\ build_conversation_context d pk m =
           flat_map (fun msg => [user_turn (user_message msg);
                                 model_turn (ai_response msg)]) kept)
  /\ length (build_conversation_context d pk m) = 2 * k
  /\ map role (build_conversation_context d pk m) = alternating k
  /\ (Z.of_nat (length (build_conversation_context d pk m)) <= 2 * m)%Z.
Proof.
  intros Hm n k.
  destruct (build_conversation_context_window d pk m Hm)
    as (Hs & Hp & older & kept & Hsplit & Hk & Hb & Hlen & Hroles).
  fold n k in Hk, Hlen, Hroles.
  split; [exact Hs|]. split; [exact Hp|].
  split; [exists older, kept; repeat split; assumption|].
  split; [exact Hlen|]. split; [exact Hroles|].
  rewrite Hlen. subst k. lia.
Qed.

Lemma build_conversation_context_bounded_witness :
  length (build_conversation_context one_message 1 4) = 2 * 1
  /\ map role (build_conversation_context one_message 1 4) = alternating 1.
Proof.
  destruct (build_conversation_context_bounded one_message 1 4)
    as (_ & _ & _ & Hlen & Hroles & _).
  - lia.
  - split; [exact Hlen | exact Hroles].
Defined.

Lemma filter_session_others (pk : nat) (extra : list ChatMessage) :
  (forall r, In r extra -> session r <> pk) -> filter_session pk extra = [].
Proof.
  intro H. unfold filter_session. induction extra as [|r l IH]; [reflexivity|].
  simpl. assert (Hr : Nat.eqb (session r) pk = false).
  { apply Nat.eqb_neq. apply H. left. reflexivity. }
  rewrite Hr. apply IH. intros x Hx. apply H. right. exact Hx.
Qed.

(** X11: the context of a session is built from its own rows only: rows
    of other sessions added to the store, and any change of the session
    table, leave it as it was. *)
Theorem build_conversation_context_isolated (d : store)
    (others : list ChatSession) (extra : list ChatMessage) (pk : nat) (m : Z) :
  (forall r, In r extra -> session r <> pk) ->
  build_conversation_context
    {| sessions := others; messages := messages d ++ extra |} pk m
  = build_conversation_context d pk m.
Proof.
  intro H. unfold build_conversation_context. simpl.
  unfold filter_session at 1. rewrite List.filter_app.
  fold (filter_session pk (messages d)). fold (filter_session pk extra).
  rewrite (filter_session_others pk extra H), app_nil_r. reflexivity.
Qed.

Lemma build_conversation_context_isolated_witness :
  build_conversation_context
    {| sessions := []; messages := messages one_message ++ [row 2 "x" "y" 5] |} 1 4
  = build_conversation_context one_message 1 4.
Proof.
  apply (build_conversation_context_isolated one_message [] [row 2 "x" "y" 5] 1 4).
  intros r [<- | []]. simpl. discriminate.
Defined.

Lemma insert_by_timestamp_last (m : ChatMessage) (l : list ChatMessage) :
  (forall x, In x l -> (timestamp x <= timestamp m)%Q) ->
  insert_by_timestamp m l = l ++ [m].
Proof.
  intro H. induction l as [|x r IH]; [reflexivity|]. simpl.
  assert (Hx : Qltb (timestamp m) (timestamp x) = false).
  { apply Qltb_ge. apply H. left. reflexivity. }
  rewrite Hx. f_equal. apply IH. intros y Hy. apply H. right. exact Hy.
Qed.

Lemma order_by_timestamp_snoc (l : list ChatMessage) (m : ChatMessage) :
  (forall x, In x l -> (timestamp x <= timestamp m)%Q) ->
  order_by_timestamp (l ++ [m]) = order_by_timestamp l ++ [m].
Proof.
  intro H. unfold order_by_timestamp. rewrite fold_left_app. simpl.
  apply insert_by_timestamp_last. intros x Hx. apply H.
  destruct (order_by_timestamp_sorts l) as [_ Hp].
  apply (Permutation_in x (Permutation_sym Hp)). exact Hx.
Qed.

Lemma expand_app (a b : list ChatMessage) : expand (a ++ b) = expand a ++ expand b.
Proof.
  induction a as [|x a IH]; [reflexivity|]. simpl. rewrite IH. reflexivity.
Qed.

Lemma context_ends_with_new_row (d : store)
    (others : list ChatSession) (r : ChatMessage) (m : Z) :
  (1 <= m)%Z ->
  (forall x, In x (messages d) -> session x = session r ->
             (timestamp x <= timestamp r)%Q) ->
  exists earlier,
    build_conversation_context
      {| sessions := others; messages := messages d ++ [r] |} (session r) m
    = earlier ++ [user_turn (user_message r); model_turn (ai_response r)].
Proof.
  intros Hm Hlatest. unfold build_conversation_context. simpl.
  unfold filter_session at 1. rewrite List.filter_app. simpl.
  rewrite Nat.eqb_refl. fold (filter_session (session r) (messages d)).
  rewrite order_by_timestamp_snoc.
  - rewrite (keep_last_positive m _ Hm).
    set (sl := order_by_timestamp (filter_session (session r) (messages d))).
    rewrite length_app. simpl length.
    rewrite skipn_app.
    replace (length sl + 1 - Nat.min (length sl + 1) (Z.to_nat m) - length sl)
      with 0 by lia.
    simpl skipn. rewrite expand_app. simpl. eexists. reflexivity.
  - intros x Hx. unfold filter_session in Hx. apply filter_In in Hx.
    destruct Hx as [Hin Hs]. apply Nat.eqb_eq in Hs. apply Hlatest; assumption.
Qed.

(** X12: the store remembers: once a row is added to a session with a
    timestamp not before those of its rows, every context built with a
    bound of at least one ends with the user turn and the model turn of
    that row. *)
Theorem build_conversation_context_remembers (d : store)
    (others : list ChatSession) (r : ChatMessage) (m : Z) :
  (1 <= m)%Z ->
  (forall x, In x (messages d) -> session x = session r ->
             (timestamp x <= timestamp r)%Q) ->
  exists earlier,
    build_conversation_context
      {| sessions := others; messages := messages d ++ [r] |} (session r) m
    = earlier ++ [user_turn (user_message r); model_turn (ai_response r)].
Proof.
  intros Hm Hlatest.
  destruct (context_ends_with_new_row d others r m Hm Hlatest) as [earlier H].
  exists earlier. exact H.
Qed.

Lemma build_conversation_context_remembers_witness :
  exists earlier,
    build_conversation_context
      {| sessions := []; messages := messages one_message ++ [row 1 "q" "a" 3] |}
      1 4
    = earlier ++ [user_turn "q"; model_turn "a"].
Proof.
  apply (build_conversation_context_remembers one_message [] (row 1 "q" "a" 3) 4).
  - lia.
  - intros x [<- | []] _. vm_compute. discriminate.
Defined.

(** ** Completion client: model selection *)

Section Selection.
Variable E : env.

Lemma test_model_eq (h : client) (name : string) :
  test_model E h name =
  (probe_ok E (length (probes h)) name,
   {| initialized := initialized h; working_model := working_model h;
      calls := calls h; probes := probes h ++ [name]; sleeps := sleeps h |}).
Proof.
  unfold test_model, probe_ok. destruct (probe E _ name); reflexivity.
Qed.

Lemma find_model_spec (names : list string) :
  forall (h h' : client) (ok : bool),
    find_model E names h = (ok, h') ->
    calls h' = calls h /\ sleeps h' = sleeps h
    /\ if ok then
         exists earlier m later,
           names = earlier ++ m :: later
           /\ initialized h' = true
           /\ working_model h' = Some m
           /\ probes h' = probes h ++ earlier ++ [m]
           /\ probe_ok E (length (probes h) + length earlier) m = true
           /\ (forall i name, nth_error earlier i = Some name ->
                 probe_ok E (length (probes h) + i) name = false)
       else
         initialized h' = initialized h
         /\ working_model h' = working_model h
         /\ probes h' = probes h ++ names
         /\ (forall i name, nth_error names i = Some name ->
               probe_ok E (length (probes h) + i) name = false).
Proof.
  induction names as [|name rest IH]; intros h h' ok H.
  - simpl in H. inversion H; subst. split; [reflexivity|]. split; [reflexivity|].
    rewrite app_nil_r. repeat split; try reflexivity.
    intros i name Hn. destruct i; discriminate.
  - simpl in H. rewrite test_model_eq in H.
    destruct (probe_ok E (length (probes h)) name) eqn:Hp.
    + inversion H; subst. simpl. split; [reflexivity|]. split; [reflexivity|].
      exists [], name, rest. simpl. rewrite Nat.add_0_r.
      repeat split; try reflexivity; try assumption.
      intros i n Hn. destruct i; discriminate.
    + apply IH in H. simpl in H. destruct H as (Hc & Hs & H).
      split; [exact Hc|]. split; [exact Hs|].
      rewrite length_app in H. simpl in H.
      destruct ok.
      * destruct H as (earlier & m & later & Hn & Hi & Hw & Hpr & Hok & Hfail).
        exists (name :: earlier), m, later. subst rest. simpl.
        split; [reflexivity|]. split; [exact Hi|]. split; [exact Hw|].
        split; [rewrite Hpr, <- app_assoc; reflexivity|].
        split; [rewrite <- Hok; f_equal; lia|].
        intros i n Hn. destruct i as [|i]; simpl in Hn.
        -- inversion Hn; subst. rewrite Nat.add_0_r. exact Hp.
        -- rewrite <- (Hfail i n Hn). f_equal. lia.
      * destruct H as (Hi & Hw & Hpr & Hfail).
        split; [exact Hi|]. split; [exact Hw|].
        split; [rewrite Hpr, <- app_assoc; reflexivity|].
        intros i n Hn. destruct i as [|i]; simpl in Hn.
        -- inversion Hn; subst. rewrite Nat.add_0_r. exact Hp.
        -- rewrite <- (Hfail i n Hn). f_equal. lia.
Qed.

(** X13: when [initialize] succeeds, the handler holds the first
    candidate, in the order of [STABLE_MODELS], whose probe gave text that
    is not blank; the candidates before it were probed in order and
    failed, those after it were not probed; no generation call and no
    sleep took place. *)
Theorem initialize_selects_first (h h' : client) :
  initialize E h = (true, h') ->
  exists earlier m later,
    STABLE_MODELS = earlier ++ m :: later
    /\ initialized h' = true
    /\ working_model h' = Some m
    /\ probes h' = probes h ++ earlier ++ [m]
    /\ probe_ok E (length (probes h) + length earlier) m = true
    /\ (forall i name, nth_error earlier i = Some name ->
          probe_ok E (length (probes h) + i) name = false)
    /\ calls h' = calls h /\ sleeps h' = sleeps h.
Proof.
  unfold initialize. intro H.
  destruct (GEMINI_API_KEY E) as [key|]; [|discriminate].
  destruct (Nat.eqb _ 0); [discriminate|].
  destruct (configure E key); [discriminate|].
  apply find_model_spec in H. destruct H as (Hc & Hs & earlier & m & later & H).
  exists earlier, m, later. intuition.
Qed.

(** X14: when [initialize] fails, the handler keeps its flag and its
    model; either nothing was probed (no key, an empty key, or a failing
    [configure]) or every candidate was probed once, in order, and none
    gave text. *)
Theorem initialize_failure (h h' : client) :
  initialize E h = (false, h') ->
  initialized h' = initialized h
  /\ working_model h' = working_model h
  /\ calls h' = calls h /\ sleeps h' = sleeps h
  /\ (h' = h
      \/ (probes h' = probes h ++ STABLE_MODELS
          /\ forall i name, nth_error STABLE_MODELS i = Some name ->
               probe_ok E (length (probes h) + i) name = false)).
Proof.
  unfold initialize. intro H.
  destruct (GEMINI_API_KEY E) as [key|];
    [|inversion H; subst; intuition].
  destruct (Nat.eqb _ 0); [inversion H; subst; intuition|].
  destruct (configure E key); [inversion H; subst; intuition|].
  apply find_model_spec in H. destruct H as (Hc & Hs & Hi & Hw & Hp & Hf).
  intuition.
Qed.

(** X15: without a key in the settings an uninitialized handler answers
    every request with the unavailable error and does nothing else: no
    probe, no generation call, no sleep. *)
Theorem generate_response_without_key (h : client) (msgs : list turn)
    (um : string) (max_attempts : nat) :
  initialized h = false ->
  GEMINI_API_KEY E = None \/ GEMINI_API_KEY E = Some EmptyString ->
  generate_response E h msgs um max_attempts = (Raise Unavailable, h).
Proof.
  intros Hi Hk. unfold generate_response. rewrite Hi.
  assert (Hinit : initialize E h = (false, h)).
  { unfold initialize. destruct Hk as [-> | ->]; reflexivity. }
  rewrite Hinit. simpl. rewrite Hi. reflexivity.
Qed.

End Selection.

Lemma initialize_selects_first_witness :
  exists earlier m later,
    STABLE_MODELS = earlier ++ m :: later
    /\ working_model (snd (initialize second_model_only new_client)) = Some m
    /\ probes (snd (initialize second_model_only new_client))
       = probes new_client ++ earlier ++ [m].
Proof.
  destruct (initialize_selects_first second_model_only new_client
              (snd (initialize second_model_only new_client)) eq_refl)
    as (earlier & m & later & Hs & _ & Hw & Hp & _).
  exists earlier, m, later. split; [exact Hs|]. split; [exact Hw | exact Hp].
Defined.

Lemma initialize_failure_witness :
  initialized (snd (initialize no_model new_client)) = false
  /\ probes (snd (initialize no_model new_client)) = STABLE_MODELS.
Proof.
  destruct (initialize_failure no_model new_client
              (snd (initialize no_model new_client)) eq_refl)
    as (Hi & _ & _ & _ & _).
  split; [exact Hi | reflexivity].
Defined.

Lemma generate_response_without_key_witness :
  generate_response no_key new_client two_turns "Hi" 5
  = (Raise Unavailable, new_client).
Proof.
  apply (generate_response_without_key no_key new_client two_turns "Hi" 5).
  - reflexivity.
  - left. reflexivity.
Defined.

(** ** Completion client: bounds and failures of the retry loop *)

Lemma Qsum_app (a b : list Q) : (Qsum (a ++ b) == Qsum a + Qsum b)%Q.
Proof.
  induction a as [|x a IH]; simpl; [lra|]. rewrite IH. lra.
Qed.

Lemma inject_nat_nonneg (n : nat) : (0 <= inject_Z (Z.of_nat n))%Q.
Proof.
  change 0%Q with (inject_Z 0). rewrite <- Zle_Qle. lia.
Qed.

Lemma backoff_budget_nonneg (remaining : nat) :
  forall attempt max_attempts,
    (0 <= backoff_budget remaining attempt max_attempts)%Q.
Proof.
  induction remaining as [|r IH]; intros attempt mx; simpl; [lra|].
  pose proof (IH (S attempt) mx).
  pose proof (inject_nat_nonneg ((attempt + 1) * 2)).
  destruct (Nat.ltb attempt (mx - 1)); lra.
Qed.

Section Loop.
Variable E : env.

Lemma attempts_frame (remaining : nat) :
  forall (attempt max_attempts : nat) (msgs : list turn) (um : string)
         (h h' : client) (r : result string),
    attempts E remaining attempt max_attempts msgs um h = (r, h') ->
    initialized h' = initialized h
    /\ working_model h' = working_model h
    /\ probes h' = probes h.
Proof.
  induction remaining as [|rem IH]; intros attempt mx msgs um h h' r H.
  - simpl in H. inversion H; subst. repeat split.
  - rewrite attempts_S in H. cbv zeta in H.
    destruct (generate E _ _ _) as [text | e].
    + destruct (has_text text).
      * inversion H; subst. repeat split.
      * apply IH in H. exact H.
    + destruct (non_retryable _).
      * inversion H; subst. repeat split.
      * apply IH in H. destruct (Nat.ltb attempt (mx - 1)); exact H.
Qed.

Lemma attempts_sleeps (remaining : nat) :
  forall (attempt max_attempts : nat) (msgs : list turn) (um : string)
         (h h' : client) (r : result string),
    attempts E remaining attempt max_attempts msgs um h = (r, h') ->
    exists added,
      sleeps h' = sleeps h ++ added
      /\ length added <= max_attempts - 1 - attempt
      /\ ((forall n, (uniform E n <= 3 # 2)%Q) ->
          (Qsum added <= backoff_budget remaining attempt max_attempts)%Q).
Proof.
  induction remaining as [|rem IH]; intros attempt mx msgs um h h' r H.
  - simpl in H. inversion H; subst. exists []. rewrite app_nil_r.
    split; [reflexivity|]. split; [simpl; lia|]. intros _. simpl. lra.
  - rewrite attempts_S in H. cbv zeta in H.
    pose proof (backoff_budget_nonneg rem (S attempt) mx) as Hnn.
    pose proof (inject_nat_nonneg ((attempt + 1) * 2)) as Hnat.
    assert (Hskip : forall h1,
               sleeps h1 = sleeps h ->
               attempts E rem (S attempt) mx msgs um h1 = (r, h') ->
               exists added,
                 sleeps h' = sleeps h ++ added
                 /\ length added <= mx - 1 - attempt
                 /\ ((forall n, (uniform E n <= 3 # 2)%Q) ->
                     (Qsum added <= backoff_budget (S rem) attempt mx)%Q)).
    { intros h1 Hs1 H1. apply IH in H1.
      destruct H1 as (added & Hs & Hl & Hq). exists added.
      split; [rewrite Hs, Hs1; reflexivity|]. split; [lia|].
      intro Hu. specialize (Hq Hu). simpl.
      destruct (Nat.ltb attempt (mx - 1)); lra. }
    destruct (generate E _ _ _) as [text | e].
    + destruct (has_text text).
      * inversion H; subst. exists []. simpl. rewrite app_nil_r.
        split; [reflexivity|]. split; [lia|]. intros _.
        destruct (Nat.ltb attempt (mx - 1)); lra.
      * refine (Hskip _ _ H). reflexivity.
    + destruct (non_retryable _).
      * inversion H; subst. exists []. simpl. rewrite app_nil_r.
        split; [reflexivity|]. split; [lia|]. intros _.
        destruct (Nat.ltb attempt (mx - 1)); lra.
      * destruct (Nat.ltb attempt (mx - 1)) eqn:Hlt;
          [|refine (Hskip _ _ H); reflexivity].
        apply Nat.ltb_lt in Hlt. apply IH in H.
        destruct H as (added & Hs & Hl & Hq).
        exists ((inject_Z (Z.of_nat ((attempt + 1) * 2))
                 + uniform E (length (sleeps h)))%Q :: added).
        split; [rewrite Hs; simpl; rewrite <- app_assoc; reflexivity|].
        split; [simpl; lia|].
        intro Hu. specialize (Hq Hu). pose proof (Hu (length (sleeps h))).
        simpl. assert (Hb : Nat.ltb attempt (mx - 1) = true)
          by (apply Nat.ltb_lt; exact Hlt).
        rewrite Hb. lra.
Qed.

(** X16: one call of [generate_response] issues at most [max_attempts]
    generation calls and sleeps at most [max_attempts - 1] times; when no
    jitter exceeds 3/2 and [max_attempts] is 5, it sleeps 26 seconds at
    most in all.  It leaves the flag, the model and the probes of an
    initialized handler as they were. *)
Theorem generate_response_bounded (h h' : client) (msgs : list turn)
    (um : string) (max_attempts : nat) (r : result string) :
  generate_response E h msgs um max_attempts = (r, h') ->
  length (calls h') <= length (calls h) + max_attempts
  /\ (exists added,
        sleeps h' = sleeps h ++ added
        /\ length added <= max_attempts - 1
        /\ ((forall n, (uniform E n <= 3 # 2)%Q) -> max_attempts = 5 ->
            (Qsum added <= 26)%Q))
  /\ (initialized h = true ->
      initialized h' = true /\ working_model h' = working_model h
      /\ probes h' = probes h).
Proof.
  unfold generate_response.
  set (h1 := if initialized h then h else snd (initialize E h)).
  assert (Hc1 : calls h1 = calls h /\ sleeps h1 = sleeps h).
  { subst h1. destruct (initialized h); [split; reflexivity|].
    apply initialize_calls. }
  destruct Hc1 as [Hc1 Hs1].
  assert (Hh1 : initialized h = true -> h1 = h).
  { intro Hi. subst h1. rewrite Hi. reflexivity. }
  destruct (negb (initialized h1)) eqn:Hn; intro H.
  - inversion H; subst h'. rewrite Hc1, Hs1.
    split; [lia|]. split.
    + exists []. rewrite app_nil_r. split; [reflexivity|].
      split; [simpl; lia|]. intros _ _. simpl. lra.
    + intro Hi. rewrite (Hh1 Hi) in Hn. rewrite Hi in Hn. discriminate.
  - split; [|split].
    + apply attempts_calls in H. destruct H as (n & Hle & Hc).
      rewrite Hc, length_app, length_map, length_seq, Hc1. lia.
    + apply attempts_sleeps in H. destruct H as (added & Hs & Hl & Hq).
      exists added. rewrite Hs, Hs1.
      split; [reflexivity|]. split; [lia|].
      intros Hu Hm. specialize (Hq Hu). subst max_attempts.
      assert (Hb : (backoff_budget 5 0 5 <= 26)%Q)
        by (apply Qle_bool_iff; vm_compute; reflexivity).
      lra.
    + intro Hi. apply attempts_frame in H. rewrite (Hh1 Hi) in H.
      destruct H as (H1 & H2 & H3). rewrite H1, Hi. intuition.
Qed.

Lemma attempts_failure (remaining : nat) :
  forall (attempt max_attempts : nat) (msgs : list turn) (um : string)
         (h h' : client) (e : exn),
    attempts E remaining attempt max_attempts msgs um h = (Raise e, h') ->
    (e = Exhausted /\ length (calls h') = length (calls h) + remaining)
    \/ (non_retryable (Py.lower (exn_msg e)) = true
        /\ exists earlier model ctx,
             calls h' = earlier ++ [(model, ctx)]
             /\ generate E (length earlier) model ctx = Fails e).
Proof.
  induction remaining as [|rem IH]; intros attempt mx msgs um h h' e H.
  - simpl in H. inversion H; subst. left. split; [reflexivity | lia].
  - rewrite attempts_S in H. cbv zeta in H.
    assert (Hnext : forall h1,
               length (calls h1) = length (calls h) + 1 ->
               attempts E rem (S attempt) mx msgs um h1 = (Raise e, h') ->
               (e = Exhausted /\ length (calls h') = length (calls h) + S rem)
               \/ (non_retryable (Py.lower (exn_msg e)) = true
                   /\ exists earlier model ctx,
                        calls h' = earlier ++ [(model, ctx)]
                        /\ generate E (length earlier) model ctx = Fails e)).
    { intros h1 Hl H1. apply IH in H1. destruct H1 as [[He Hc] | Hr].
      - left. split; [exact He | lia].
      - right. exact Hr. }
    assert (Hrec : forall m c, length (calls (record_call h m c))
                               = length (calls h) + 1).
    { intros m c. simpl. rewrite length_app. reflexivity. }
    destruct (generate E _ _ _) as [text | e'] eqn:Hg.
    + destruct (has_text text); [discriminate|].
      refine (Hnext _ _ H). apply Hrec.
    + destruct (non_retryable _) eqn:Hf.
      * inversion H; subst. right. split; [exact Hf|].
        exists (calls h), (default EmptyString (working_model h)),
          (context_for attempt msgs um).
        split; [reflexivity | exact Hg].
      * destruct (Nat.ltb attempt (mx - 1)).
        -- refine (Hnext _ _ H). simpl. rewrite length_app. reflexivity.
        -- refine (Hnext _ _ H). apply Hrec.
Qed.

(** X17: [generate_response] fails in one of three ways only: with the
    unavailable error, before any generation call, when the handler could
    not be initialized; with the exhausted error after exactly
    [max_attempts] generation calls; or with the error its last
    generation call raised, whose message holds one of the four
    keywords. *)
Theorem generate_response_failure (h h' : client) (msgs : list turn)
    (um : string) (max_attempts : nat) (e : exn) :
  generate_response E h msgs um max_attempts = (Raise e, h') ->
  (e = Unavailable /\ initialized h' = false /\ calls h' = calls h
   /\ sleeps h' = sleeps h)
  \/ (e = Exhausted
      /\ length (calls h') = length (calls h) + max_attempts)
  \/ (non_retryable (Py.lower (exn_msg e)) = true
      /\ exists earlier model ctx,
           calls h' = earlier ++ [(model, ctx)]
           /\ generate E (length earlier) model ctx = Fails e).
Proof.
  unfold generate_response.
  set (h1 := if initialized h then h else snd (initialize E h)).
  assert (Hc1 : calls h1 = calls h /\ sleeps h1 = sleeps h).
  { subst h1. destruct (initialized h); [split; reflexivity|].
    apply initialize_calls. }
  destruct Hc1 as [Hc1 Hs1].
  destruct (negb (initialized h1)) eqn:Hn; intro H.
  - inversion H; subst. left. apply negb_true_iff in Hn. intuition.
  - right. apply attempts_failure in H. rewrite Hc1 in H. exact H.
Qed.

End Loop.

Section Exhaustion.
Variable E : env.

Lemma attempts_all_errors (remaining : nat) :
  forall (attempt max_attempts : nat) (msgs : list turn) (um : string)
         (h : client),
    (forall n model ctx, exists e,
        generate E n model ctx = Fails e
        /\ non_retryable (Py.lower (exn_msg e)) = false) ->
    attempt + remaining = max_attempts ->
    exists h',
      attempts E remaining attempt max_attempts msgs um h = (Raise Exhausted, h')
      /\ length (calls h') = length (calls h) + remaining
      /\ sleeps h' = sleeps h ++
           map (fun i => delay_of E (attempt + i) (length (sleeps h) + i))
               (seq 0 (remaining - 1)).
Proof.
  induction remaining as [|rem IH]; intros attempt mx msgs um h Hall Hsum.
  - exists h. simpl. rewrite app_nil_r. repeat split. lia.
  - rewrite attempts_S. cbv zeta.
    destruct (Hall (length (calls h)) (default EmptyString (working_model h))
                (context_for attempt msgs um)) as (e & Hg & Hf).
    rewrite Hg, Hf.
    destruct rem as [|rem'].
    + assert (Hb : Nat.ltb attempt (mx - 1) = false) by (apply Nat.ltb_ge; lia).
      rewrite Hb. simpl. eexists. split; [reflexivity|]. simpl.
      rewrite length_app, app_nil_r. split; reflexivity.
    + assert (Hb : Nat.ltb attempt (mx - 1) = true) by (apply Nat.ltb_lt; lia).
      rewrite Hb.
      destruct (IH (S attempt) mx msgs um
                  (backoff E (record_call h (default EmptyString (working_model h))
                                (context_for attempt msgs um)) attempt)
                  Hall ltac:(lia)) as (h' & Hr & Hc & Hs).
      exists h'. split; [exact Hr|]. split.
      * rewrite Hc. simpl. rewrite length_app. simpl. lia.
      * rewrite Hs. simpl sleeps. rewrite <- app_assoc. f_equal.
        simpl Nat.sub. rewrite Nat.sub_0_r.
        change (seq 0 (S rem')) with (0 :: seq 1 rem').
        rewrite <- seq_shift. cbn [map]. rewrite map_map.
        rewrite !Nat.add_0_r. cbn [List.app]. f_equal; try reflexivity.
        apply map_ext. intro i. rewrite length_app. simpl length.
        f_equal; lia.
Qed.

(** X18: on an initialized handler whose every generation call raises a
    retryable error, [generate_response] gives up with the exhausted
    error after exactly [max_attempts] calls, having slept after every
    attempt but the last: attempt [k] is followed by a sleep of
    [(k+1)*2] seconds plus the jitter drawn. *)
Theorem generate_response_all_errors (h : client) (msgs : list turn)
    (um : string) (max_attempts : nat) :
  initialized h = true ->
  (forall n model ctx, exists e,
      generate E n model ctx = Fails e
      /\ non_retryable (Py.lower (exn_msg e)) = false) ->
  exists h',
    generate_response E h msgs um max_attempts = (Raise Exhausted, h')
    /\ length (calls h') = length (calls h) + max_attempts
    /\ sleeps h' = sleeps h ++
         map (fun k => delay_of E k (length (sleeps h) + k))
             (seq 0 (max_attempts - 1)).
Proof.
  intros Hi Hall. rewrite generate_response_initialized by exact Hi.
  apply (attempts_all_errors max_attempts 0 max_attempts msgs um h Hall).
  reflexivity.
Qed.

Lemma attempts_all_blank (remaining : nat) :
  forall (attempt max_attempts : nat) (msgs : list turn) (um : string)
         (h : client),
    (forall n model ctx, exists text,
        generate E n model ctx = Text text /\ Py.strip text = EmptyString) ->
    exists h',
      attempts E remaining attempt max_attempts msgs um h = (Raise Exhausted, h')
      /\ length (calls h') = length (calls h) + remaining
      /\ sleeps h' = sleeps h.
Proof.
  induction remaining as [|rem IH]; intros attempt mx msgs um h Hall.
  - exists h. simpl. repeat split. lia.
  - rewrite attempts_S. cbv zeta.
    destruct (Hall (length (calls h)) (default EmptyString (working_model h))
                (context_for attempt msgs um)) as (text & Hg & Hb).
    rewrite Hg, (blank_has_no_text text Hb).
    destruct (IH (S attempt) mx msgs um
                (record_call h (default EmptyString (working_model h))
                   (context_for attempt msgs um)) Hall) as (h' & Hr & Hc & Hs).
    exists h'. split; [exact Hr|]. split.
    + rewrite Hc. simpl. rewrite length_app. simpl. lia.
    + rewrite Hs. reflexivity.
Qed.

(** X19: on an initialized handler whose every generation call returns
    empty or whitespace-only text, [generate_response] issues its
    [max_attempts] calls one after the other without any sleep and gives
    up with the exhausted error. *)
Theorem generate_response_all_blank (h : client) (msgs : list turn)
    (um : string) (max_attempts : nat) :
  initialized h = true ->
  (forall n model ctx, exists text,
      generate E n model ctx = Text text /\ Py.strip text = EmptyString) ->
  exists h',
    generate_response E h msgs um max_attempts = (Raise Exhausted, h')
    /\ length (calls h') = length (calls h) + max_attempts
    /\ sleeps h' = sleeps h.
Proof.
  intros Hi Hall. rewrite generate_response_initialized by exact Hi.
  apply (attempts_all_blank max_attempts 0 max_attempts msgs um h Hall).
Qed.

End Exhaustion.

Lemma generate_response_bounded_witness :
  length (calls (snd (generate_response (always_failing (Exception "timeout"))
                        ready two_turns "Hi" 5)))
  <= length (calls ready) + 5
  /\ exists added,
       sleeps (snd (generate_response (always_failing (Exception "timeout"))
                      ready two_turns "Hi" 5)) = sleeps ready ++ added
       /\ length added <= 5 - 1
       /\ (Qsum added <= 26)%Q.
Proof.
  destruct (generate_response_bounded (always_failing (Exception "timeout"))
              ready
              (snd (generate_response (always_failing (Exception "timeout"))
                      ready two_turns "Hi" 5))
              two_turns "Hi" 5 (Raise Exhausted) eq_refl)
    as (Hc & (added & Hs & Hl & Hq) & _).
  split; [exact Hc|]. exists added. split; [exact Hs|]. split; [exact Hl|].
  apply Hq; [|reflexivity]. intro n. apply Qle_bool_iff. reflexivity.
Defined.

Lemma generate_response_failure_witness :
  non_retryable (Py.lower (exn_msg (Exception "429 Quota exceeded"))) = true
  \/ Exception "429 Quota exceeded" = Unavailable
  \/ Exception "429 Quota exceeded" = Exhausted.
Proof.
  destruct (generate_response_failure
              (scripted [Fails (Exception "timeout");
                         Fails (Exception "429 Quota exceeded")])
              ready
              (snd (generate_response
                      (scripted [Fails (Exception "timeout");
                                 Fails (Exception "429 Quota exceeded")])
                      ready two_turns "Hi" 5))
              two_turns "Hi" 5 (Exception "429 Quota exceeded") eq_refl)
    as [(He & _) | [(He & _) | (Hf & _)]].
  - right. left. exact He.
  - right. right. exact He.
  - left. exact Hf.
Defined.

Lemma generate_response_all_errors_witness :
  exists h',
    generate_response (always_failing (Exception "timeout")) ready two_turns
      "Hi" 5 = (Raise Exhausted, h')
    /\ length (calls h') = 5
    /\ length (sleeps h') = 4.
Proof.
  destruct (generate_response_all_errors (always_failing (Exception "timeout"))
              ready two_turns "Hi" 5 eq_refl)
    as (h' & Hr & Hc & Hs).
  - intros n model ctx. exists (Exception "timeout"). split; reflexivity.
  - exists h'. split; [exact Hr|]. split; [exact Hc|]. rewrite Hs. reflexivity.
Defined.

Lemma generate_response_all_blank_witness :
  exists h',
    generate_response (always_saying "  ") ready two_turns "Hi" 5
    = (Raise Exhausted, h')
    /\ length (calls h') = 5
    /\ sleeps h' = [].
Proof.
  destruct (generate_response_all_blank (always_saying "  ")
              ready two_turns "Hi" 5 eq_refl)
    as (h' & Hr & Hc & Hs).
  - intros n model ctx. exists "  ". split; reflexivity.
  - exists h'. split; [exact Hr|]. split; [exact Hc | exact Hs].
Defined.

(** ** Session management *)

Lemma next_pk_above (l : list ChatSession) (s : ChatSession) :
  In s l -> cs_pk s < next_pk l.
Proof.
  unfold next_pk. induction l as [|x l IH]; intros Hin; [destruct Hin|].
  simpl. destruct Hin as [<- | Hin]; [lia|]. specialize (IH Hin). lia.
Qed.

Lemma next_pk_not_in (l : list ChatSession) : ~ In (next_pk l) (map cs_pk l).
Proof.
  intro H. apply in_map_iff in H. destruct H as (s & Hpk & Hin).
  pose proof (next_pk_above l s Hin). lia.
Qed.

Lemma find_app_split {A : Type} (p : A -> bool) (l1 l2 : list A) :
  find p (l1 ++ l2) = match find p l1 with
                      | Some x => Some x
                      | None => find p l2
                      end.
Proof.
  induction l1 as [|x l1 IH]; [reflexivity|]. simpl.
  destruct (p x); [reflexivity | exact IH].
Qed.

Lemma keep_last_nil {A : Type} (k : Z) : keep_last k (@nil A) = [].
Proof.
  unfold keep_last, slice_from. destruct (k <? Z.of_nat (length (@nil A)))%Z;
    [|reflexivity].
  apply skipn_nil.
Qed.

Lemma get_or_create_session_inv (d d' : store) (req : request)
    (a : ambient) (s : ChatSession) (tok : option string) :
  get_or_create_session d req a = (s, d', tok) ->
  cs_is_active s = true
  /\ In s (sessions d')
  /\ tok = Some (cs_session_id s)
  /\ messages d' = messages d
  /\ ((d' = d /\ In s (sessions d)
       /\ current_chat_session req = Some (cs_session_id s)
       /\ cs_session_id s <> EmptyString)
      \/ (sessions d' = sessions d ++ [s]
          /\ cs_session_id s = uuid4 a
          /\ cs_pk s = next_pk (sessions d)
          /\ cs_user s = req_user req
          /\ forall sid, current_chat_session req = Some sid ->
               sid = EmptyString
               \/ forall x, In x (sessions d) -> cs_session_id x = sid ->
                    cs_is_active x = false)).
Proof.
  unfold get_or_create_session.
  set (fresh := {| cs_pk := next_pk (sessions d); cs_session_id := uuid4 a;
                   cs_user := req_user req; cs_created_at := tz_now a;
                   cs_updated_at := tz_now a; cs_is_active := true |}).
  assert (Hcreate : forall (P : Prop),
             (forall sid, current_chat_session req = Some sid -> P) ->
             (fresh, {| sessions := sessions d ++ [fresh]; messages := messages d |},
              Some (cs_session_id fresh)) = (s, d', tok) ->
             (forall sid, current_chat_session req = Some sid ->
                sid = EmptyString
                \/ forall x, In x (sessions d) -> cs_session_id x = sid ->
                     cs_is_active x = false) ->
             cs_is_active s = true /\ In s (sessions d')
             /\ tok = Some (cs_session_id s) /\ messages d' = messages d
             /\ ((d' = d /\ In s (sessions d)
                  /\ current_chat_session req = Some (cs_session_id s)
                  /\ cs_session_id s <> EmptyString)
                 \/ (sessions d' = sessions d ++ [s]
                     /\ cs_session_id s = uuid4 a
                     /\ cs_pk s = next_pk (sessions d)
                     /\ cs_user s = req_user req
                     /\ forall sid, current_chat_session req = Some sid ->
                          sid = EmptyString
                          \/ forall x, In x (sessions d) ->
                               cs_session_id x = sid ->
                               cs_is_active x = false))).
  { intros P _ H Hno. inversion H; subst s d' tok. simpl.
    split; [reflexivity|]. split; [apply in_or_app; right; left; reflexivity|].
    split; [reflexivity|]. split; [reflexivity|]. right.
    repeat split; try reflexivity. exact Hno. }
  destruct (current_chat_session req) as [sid|] eqn:Htok.
  - destruct (Nat.eqb (String.length sid) 0) eqn:Hlen.
    + intro H. apply (Hcreate True); [trivial | exact H |].
      intros sid' Hs. inversion Hs; subst sid'. left.
      apply length_zero_iff_empty. exact Hlen.
    + destruct (find _ (sessions d)) as [s0|] eqn:Hfind.
      * intro H. inversion H; subst s0 d' tok.
        apply find_some in Hfind. destruct Hfind as [Hin Hp].
        apply andb_true_iff in Hp. destruct Hp as [Hid Hact].
        apply String.eqb_eq in Hid.
        split; [exact Hact|]. split; [exact Hin|].
        split; [rewrite Hid; reflexivity|]. split; [reflexivity|]. left.
        split; [reflexivity|]. split; [exact Hin|].
        split; [rewrite Hid; reflexivity|].
        rewrite Hid. intro He. rewrite He in Hlen. discriminate.
      * intro H. apply (Hcreate True); [trivial | exact H |].
        intros sid' Hs. inversion Hs; subst sid'. right.
        intros x Hx Hid. pose proof (find_none _ _ Hfind x Hx) as Hp.
        simpl in Hp. rewrite Hid, String.eqb_refl in Hp. exact Hp.
  - intro H. apply (Hcreate True); [trivial | exact H |].
    intros sid Hs. discriminate.
Qed.

(** X20: [get_or_create_session] always hands back an active session of
    the store and the token that names it, and never touches the
    messages.  Either the token of the request named an active session,
    which is returned with the store unchanged; or one session is added
    with the fresh identifier, a new primary key and the user of the
    request, which happens exactly when the token is missing, empty, or
    names no active session. *)
Theorem get_or_create_session_result (d d' : store) (req : request)
    (a : ambient) (s : ChatSession) (tok : option string) :
  get_or_create_session d req a = (s, d', tok) ->
  cs_is_active s = true
  /\ In s (sessions d')
  /\ tok = Some (cs_session_id s)
  /\ messages d' = messages d
  /\ ((d' = d /\ In s (sessions d)
       /\ current_chat_session req = Some (cs_session_id s)
       /\ cs_session_id s <> EmptyString)
      \/ (sessions d' = sessions d ++ [s]
          /\ cs_session_id s = uuid4 a
          /\ cs_pk s = next_pk (sessions d)
          /\ cs_user s = req_user req
          /\ forall sid, current_chat_session req = Some sid ->
               sid = EmptyString
               \/ forall x, In x (sessions d) -> cs_session_id x = sid ->
                    cs_is_active x = false)).
Proof.
  intro H.
  destruct (get_or_create_session_inv d d' req a s tok H)
    as (Hact & Hin & Htok & Hmsg & Hcases).
  split; [exact Hact|]. split; [exact Hin|]. split; [exact Htok|].
  split; [exact Hmsg | exact Hcases].
Qed.

Lemma get_or_create_session_result_witness :
  cs_is_active (fst (fst (get_or_create_session empty_store client_a noon))) = true
  /\ snd (get_or_create_session empty_store client_a noon)
     = Some (cs_session_id
               (fst (fst (get_or_create_session empty_store client_a noon)))).
Proof.
  destruct (get_or_create_session_result empty_store
              (snd (fst (get_or_create_session empty_store client_a noon)))
              client_a noon
              (fst (fst (get_or_create_session empty_store client_a noon)))
              (snd (get_or_create_session empty_store client_a noon)) eq_refl)
    as (Hact & _ & Htok & _).
  split; [exact Hact | exact Htok].
Defined.

(** X21: the token handed out leads back to the same session: when the
    fresh identifier is not empty and not in use, a second call with the
    token of the first returns the same session and token and leaves the
    store alone. *)
Theorem get_or_create_session_again (d d' : store) (req : request)
    (a a' : ambient) (s : ChatSession) (tok : option string) :
  uuid4 a <> EmptyString ->
  unused (uuid4 a) d ->
  get_or_create_session d req a = (s, d', tok) ->
  get_or_create_session d' (with_token req tok) a' = (s, d', tok).
Proof.
  intros Hne Hun H0. pose proof H0 as H.
  apply get_or_create_session_inv in H.
  destruct H as (Hact & Hin & Htok & Hmsg & [Hfound | Hnew]).
  - destruct Hfound as (-> & _ & Hcur & _).
    unfold get_or_create_session in H0 |- *. simpl.
    rewrite Htok. rewrite Hcur in H0.
    destruct (Nat.eqb (String.length (cs_session_id s)) 0) eqn:Hl.
    + exfalso. inversion H0 as [[Hs Hd Ht]].
      assert (Hlen : length (sessions d ++ [s]) = length (sessions d))
        by (rewrite <- Hd at 2; simpl; rewrite Hs; reflexivity).
      rewrite length_app in Hlen. simpl in Hlen. lia.
    + destruct (find _ (sessions d)) as [s0|] eqn:Hf.
      * inversion H0; subst. reflexivity.
      * exfalso. inversion H0 as [[Hs Hd Ht]].
        assert (Hlen : length (sessions d ++ [s]) = length (sessions d))
          by (rewrite <- Hd at 2; simpl; rewrite Hs; reflexivity).
        rewrite length_app in Hlen. simpl in Hlen. lia.
  - destruct Hnew as (Hs & Hid & _).
    unfold get_or_create_session. simpl. rewrite Htok, Hid.
    assert (Hl : Nat.eqb (String.length (uuid4 a)) 0 = false).
    { destruct (Nat.eqb (String.length (uuid4 a)) 0) eqn:Hl0; [|reflexivity].
      apply length_zero_iff_empty in Hl0. contradiction. }
    rewrite Hl, Hs, find_app_split.
    assert (Hnone : find (fun s0 => String.eqb (cs_session_id s0) (uuid4 a)
                                    && cs_is_active s0) (sessions d) = None).
    { destruct (find _ (sessions d)) as [x|] eqn:Hf; [|reflexivity].
      apply find_some in Hf. destruct Hf as [Hx Hp].
      apply andb_true_iff in Hp. destruct Hp as [Hp _].
      apply String.eqb_eq in Hp. exfalso. exact (Hun x Hx Hp). }
    rewrite Hnone. simpl. rewrite Hid, String.eqb_refl, Hact. simpl.
    rewrite <- Hid, <- Htok. reflexivity.
Qed.

Lemma get_or_create_session_again_witness :
  get_or_create_session
    (snd (fst (get_or_create_session empty_store client_a noon)))
    (with_token client_a (snd (get_or_create_session empty_store client_a noon)))
    noon
  = get_or_create_session empty_store client_a noon.
Proof.
  apply (get_or_create_session_again empty_store
           (snd (fst (get_or_create_session empty_store client_a noon)))
           client_a noon noon
           (fst (fst (get_or_create_session empty_store client_a noon)))
           (snd (get_or_create_session empty_store client_a noon))).
  - discriminate.
  - intros s [].
  - reflexivity.
Defined.

Lemma touch_pks (pk : nat) (t : Q) (l : list ChatSession) :
  map cs_pk (touch pk t l) = map cs_pk l.
Proof.
  unfold touch. rewrite map_map. apply map_ext. intro s.
  destruct (Nat.eqb (cs_pk s) pk); reflexivity.
Qed.

Lemma fresh_session_no_rows (d : store) (s : ChatSession) (m : Z) :
  consistent d ->
  cs_pk s = next_pk (sessions d) ->
  build_conversation_context
    {| sessions := sessions d ++ [s]; messages := messages d |} (cs_pk s) m = [].
Proof.
  intros [_ Hfk] Hpk. unfold build_conversation_context. simpl.
  assert (Hnone : filter_session (cs_pk s) (messages d) = []).
  { apply filter_session_others. intros r Hr Heq.
    apply (next_pk_not_in (sessions d)). rewrite <- Hpk, <- Heq.
    apply Hfk. exact Hr. }
  rewrite Hnone. unfold order_by_timestamp. simpl. rewrite keep_last_nil.
  reflexivity.
Qed.

Lemma consistent_add_session (d : store) (s : ChatSession) :
  consistent d ->
  cs_pk s = next_pk (sessions d) ->
  consistent {| sessions := sessions d ++ [s]; messages := messages d |}.
Proof.
  intros [Hnd Hfk] Hpk. split; simpl.
  - rewrite map_app. simpl. apply NoDup_app. split; [exact Hnd|]. split.
    + intros x Hx Hin. apply list_elem_of_In in Hin, Hx.
      destruct Hin as [<- | []]. rewrite Hpk in Hx.
      exact (next_pk_not_in (sessions d) Hx).
    + constructor; [intro Hx; inversion Hx | constructor].
  - intros m Hm. rewrite map_app. apply in_or_app. left. apply Hfk. exact Hm.
Qed.

Lemma get_or_create_session_consistent (d d' : store) (req : request)
    (a : ambient) (s : ChatSession) (tok : option string) :
  consistent d ->
  get_or_create_session d req a = (s, d', tok) ->
  consistent d' /\ In (cs_pk s) (map cs_pk (sessions d')).
Proof.
  intros Hc H. apply get_or_create_session_inv in H.
  destruct H as (_ & Hin & _ & Hmsg & [(-> & _) | (Hs & _ & Hpk & _)]).
  - split; [exact Hc | apply in_map; exact Hin].
  - split; [| apply in_map; exact Hin].
    assert (Hd : d' = {| sessions := sessions d ++ [s]; messages := messages d |}).
    { destruct d' as [ss ms]. simpl in *. subst. reflexivity. }
    rewrite Hd. apply consistent_add_session; assumption.
Qed.

(** X22: the endpoints keep the store consistent: after [chat_api] and
    after [new_chat] the primary keys of the sessions are still distinct
    and every message still belongs to a session of the table. *)
Theorem store_stays_consistent (E : env) (st : app) (req : request)
    (a : ambient) :
  consistent (db st) ->
  consistent (db (snd (fst (chat_api E st req a))))
  /\ consistent (snd (fst (new_chat (db st) req a))).
Proof.
  intro Hc. split.
  - unfold chat_api.
    destruct (rate_limit_check _ _ _ _ _) as [ok c'].
    destruct ok; simpl; [|exact Hc].
    destruct (req_body req) as [| |m]; simpl; try exact Hc.
    destruct (Nat.eqb _ 0); simpl; [exact Hc|].
    destruct (sanitize_input _) as [um|e]; simpl; [|exact Hc].
    destruct (get_or_create_session (db st) req a) as [[cs d] tok] eqn:Hg.
    destruct (get_or_create_session_consistent _ _ _ _ _ _ Hc Hg) as [[Hnd Hfk] Hin].
    destruct (generate_response E _ _ um 5) as [[s|e] h']; simpl;
      [|split; assumption].
    split; simpl.
    + rewrite touch_pks. exact Hnd.
    + intros m0 Hm. rewrite touch_pks. apply in_app_or in Hm.
      destruct Hm as [Hm | [<- | []]]; [apply Hfk; exact Hm | exact Hin].
  - unfold new_chat. simpl. apply consistent_add_session; [exact Hc | reflexivity].
Qed.

Lemma store_stays_consistent_witness :
  consistent (db (snd (fst (chat_api (scripted [Text "Hi there"]) primed_app
                              client_a noon)))).
Proof.
  apply (store_stays_consistent (scripted [Text "Hi there"]) primed_app
           client_a noon).
  split; [constructor | intros m []].
Defined.

(** X23: [new_chat] always opens a session of its own, whatever the
    token of the request: the table gains one active session with a new
    primary key and the fresh identifier, the answer and the token name
    it, and the messages are untouched.  On a consistent store the new
    session has an empty context, and when the identifier is not empty
    and not in use the next request with the token resolves to it. *)
Theorem new_chat_opens_session (d : store) (req : request) (a a' : ambient)
    (m : Z) :
  consistent d ->
  uuid4 a <> EmptyString ->
  unused (uuid4 a) d ->
  exists s,
    new_chat d req a =
      ({| nc_status := 200; nc_success := true;
          nc_message := "New chat session started";
          nc_session_id := uuid4 a |},
       {| sessions := sessions d ++ [s]; messages := messages d |},
       Some (uuid4 a))
    /\ cs_session_id s = uuid4 a
    /\ cs_is_active s = true
    /\ ~ In (cs_pk s) (map cs_pk (sessions d))
    /\ build_conversation_context (snd (fst (new_chat d req a))) (cs_pk s) m = []
    /\ get_or_create_session (snd (fst (new_chat d req a)))
         (with_token req (snd (new_chat d req a))) a'
       = (s, snd (fst (new_chat d req a)), Some (uuid4 a)).
Proof.
  intros Hc Hne Hun.
  set (s := {| cs_pk := next_pk (sessions d); cs_session_id := uuid4 a;
               cs_user := req_user req; cs_created_at := tz_now a;
               cs_updated_at := tz_now a; cs_is_active := true |}).
  exists s. split; [reflexivity|]. split; [reflexivity|]. split; [reflexivity|].
  split; [apply next_pk_not_in|]. split.
  - apply (fresh_session_no_rows d s m Hc). reflexivity.
  - unfold new_chat, get_or_create_session. simpl. fold s.
    assert (Hl : Nat.eqb (String.length (uuid4 a)) 0 = false).
    { destruct (Nat.eqb (String.length (uuid4 a)) 0) eqn:Hl0; [|reflexivity].
      apply length_zero_iff_empty in Hl0. contradiction. }
    rewrite Hl, find_app_split.
    assert (Hnone : find (fun s0 => String.eqb (cs_session_id s0) (uuid4 a)
                                    && cs_is_active s0) (sessions d) = None).
    { destruct (find _ (sessions d)) as [x|] eqn:Hf; [|reflexivity].
      apply find_some in Hf. destruct Hf as [Hx Hp].
      apply andb_true_iff in Hp. destruct Hp as [Hp _].
      apply String.eqb_eq in Hp. exfalso. exact (Hun x Hx Hp). }
    rewrite Hnone. simpl. rewrite String.eqb_refl. reflexivity.
Qed.

Lemma new_chat_opens_session_witness :
  exists s,
    cs_session_id s = uuid4 noon
    /\ build_conversation_context (snd (fst (new_chat empty_store client_a noon)))
         (cs_pk s) 4 = [].
Proof.
  destruct (new_chat_opens_session empty_store client_a noon noon 4)
    as (s & _ & Hid & _ & _ & Hctx & _).
  - split; [constructor | intros m []].
  - discriminate.
  - intros s [].
  - exists s. split; [exact Hid | exact Hctx].
Defined.

(** ** History endpoint and titles *)

Lemma insert_by_updated_perm (s : ChatSession) (l : list ChatSession) :
  Permutation (s :: l) (insert_by_updated s l).
Proof.
  induction l as [|x r IH]; simpl; [apply Permutation_refl|].
  destruct (Qltb (cs_updated_at x) (cs_updated_at s)); [apply Permutation_refl|].
  eapply perm_trans; [apply perm_swap|]. apply perm_skip. exact IH.
Qed.

Lemma insert_by_updated_sorted (s : ChatSession) (l : list ChatSession) :
  Sorted (fun a b => (cs_updated_at b <= cs_updated_at a)%Q) l ->
  Sorted (fun a b => (cs_updated_at b <= cs_updated_at a)%Q)
         (insert_by_updated s l).
Proof.
  induction l as [|x r IH]; intro Hs; simpl.
  - repeat constructor.
  - destruct (Qltb (cs_updated_at x) (cs_updated_at s)) eqn:Hc.
    + constructor; [exact Hs|]. constructor. apply Qltb_lt in Hc. lra.
    + apply Qltb_ge in Hc. inversion Hs as [|? ? Hr Hhd]; subst.
      constructor; [apply IH; exact Hr|].
      destruct r as [|y r']; simpl.
      * constructor. exact Hc.
      * destruct (Qltb (cs_updated_at y) (cs_updated_at s)).
        -- constructor. exact Hc.
        -- inversion Hhd; subst. constructor. assumption.
Qed.

Lemma order_by_updated_desc_acc (l acc : list ChatSession) :
  Sorted (fun a b => (cs_updated_at b <= cs_updated_at a)%Q) acc ->
  let out := fold_left (fun acc s => insert_by_updated s acc) l acc in
  Sorted (fun a b => (cs_updated_at b <= cs_updated_at a)%Q) out
  /\ Permutation (acc ++ l) out.
Proof.
  revert acc. induction l as [|s r IH]; intros acc Ha; simpl.
  - split; [exact Ha|]. rewrite app_nil_r. apply Permutation_refl.
  - destruct (IH (insert_by_updated s acc)
                (insert_by_updated_sorted s acc Ha)) as [Hs Hp].
    split; [exact Hs|].
    eapply perm_trans; [|exact Hp].
    eapply perm_trans; [apply Permutation_sym, Permutation_middle|].
    change (s :: acc ++ r) with ((s :: acc) ++ r).
    apply Permutation_app_tail. apply insert_by_updated_perm.
Qed.

Lemma order_by_updated_desc_sorts (l : list ChatSession) :
  latest_first (order_by_updated_desc l)
  /\ Permutation l (order_by_updated_desc l).
Proof.
  destruct (order_by_updated_desc_acc l [] ltac:(constructor)) as [Hs Hp].
  split; [|exact Hp]. apply Sorted_StronglySorted; [|exact Hs].
  intros a b c Hab Hbc. lra.
Qed.

Lemma StronglySorted_app_between {A : Type} (R : A -> A -> Prop)
    (l1 l2 : list A) :
  StronglySorted R (l1 ++ l2) ->
  StronglySorted R l1 /\ forall x y, In x l1 -> In y l2 -> R x y.
Proof.
  induction l1 as [|a l1 IH]; simpl; intro H.
  - split; [constructor | intros x y []].
  - inversion H as [|? ? Hs Hall]; subst. destruct (IH Hs) as [Hs1 Hb].
    split.
    + constructor; [exact Hs1|].
      apply List.Forall_forall. intros x Hx.
      apply (proj1 (List.Forall_forall _ _) Hall). apply in_or_app. left. exact Hx.
    + intros x y [<- | Hx] Hy.
      * apply (proj1 (List.Forall_forall _ _) Hall). apply in_or_app. right. exact Hy.
      * apply Hb; assumption.
Qed.

(** X24: the history endpoint lists at most 20 sessions, all of them
    active sessions of the table, the latest update first, one item for
    each with its identifier; the active sessions it leaves out were
    none of them updated after a listed one, and none is left out when
    there are 20 or fewer. *)
Theorem get_conversation_history_latest (title_of : nat -> string)
    (isoformat : Q -> string) (d : store) (req : request) :
  let history := get_conversation_history title_of isoformat d req in
  length history <= 20
  /\ map hi_session_id history = map cs_session_id (listed_sessions d)
  /\ (forall s, In s (listed_sessions d) ->
        In s (sessions d) /\ cs_is_active s = true)
  /\ latest_first (listed_sessions d)
  /\ exists omitted,
       Permutation (List.filter cs_is_active (sessions d))
                   (listed_sessions d ++ omitted)
       /\ (forall x y, In x (listed_sessions d) -> In y omitted ->
             (cs_updated_at y <= cs_updated_at x)%Q)
       /\ (length (List.filter cs_is_active (sessions d)) <= 20 -> omitted = []).
Proof.
  intro history. subst history. unfold get_conversation_history.
  set (sorted := order_by_updated_desc (List.filter cs_is_active (sessions d))).
  destruct (order_by_updated_desc_sorts (List.filter cs_is_active (sessions d)))
    as [Hs Hp]. fold sorted in Hs, Hp.
  assert (Hl : listed_sessions d = firstn 20 sorted) by reflexivity.
  assert (Hsplit : sorted = listed_sessions d ++ skipn 20 sorted).
  { rewrite Hl. symmetry. apply firstn_skipn. }
  rewrite Hsplit in Hs. apply StronglySorted_app_between in Hs.
  destruct Hs as [Hs1 Hbetween].
  split; [rewrite length_map, Hl, length_firstn; lia|].
  split; [rewrite map_map; reflexivity|].
  split.
  { intros s Hin.
    assert (Hin' : In s sorted) by (rewrite Hsplit; apply in_or_app; left; exact Hin).
    apply (Permutation_in s (Permutation_sym Hp)) in Hin'.
    rename Hin' into Hin0. clear Hin. rename Hin0 into Hin.
    apply filter_In in Hin. exact Hin. }
  split; [exact Hs1|].
  exists (skipn 20 sorted). split; [rewrite <- Hsplit; exact Hp|].
  split; [intros x y Hx Hy; exact (Hbetween x y Hx Hy)|].
  intro Hlen. apply skipn_all2.
  rewrite <- (Permutation_length Hp). exact Hlen.
Qed.

Lemma str_prefix_length (n : nat) (s : string) :
  String.length (str_prefix n s) <= n.
Proof.
  revert s. induction n as [|n IH]; intro s; simpl; [lia|].
  destruct s as [|c r]; simpl; [lia|]. specialize (IH r). lia.
Qed.

(** X25: the title of a session without stored title is
    "New Conversation" when it has no message; otherwise it comes from
    the message of the session with the earliest timestamp: that message
    itself when it has at most 50 characters, its first 50 characters and
    three dots when it is longer, so 53 characters at most. *)
Theorem get_title_untitled (title_of : nat -> string) (d : store)
    (s : ChatSession) :
  title_of (cs_pk s) = EmptyString ->
  (filter_session (cs_pk s) (messages d) = [] ->
   get_title title_of d s = "New Conversation")
  /\ (filter_session (cs_pk s) (messages d) <> [] ->
      exists first_message,
        In first_message (filter_session (cs_pk s) (messages d))
        /\ (forall x, In x (filter_session (cs_pk s) (messages d)) ->
              (timestamp first_message <= timestamp x)%Q)
        /\ get_title title_of d s =
           (if Nat.ltb 50 (String.length (user_message first_message))
            then str_prefix 50 (user_message first_message) +:+ "..."
            else user_message first_message)
        /\ String.length (get_title title_of d s) <= 53).
Proof.
  intro Ht. unfold get_title. rewrite Ht.
  change (negb (Nat.eqb (String.length EmptyString) 0)) with false. cbv iota zeta.
  destruct (order_by_timestamp_sorts (filter_session (cs_pk s) (messages d)))
    as [Hs Hp].
  split.
  - intro Hnil. rewrite Hnil. reflexivity.
  - intro Hne.
    destruct (order_by_timestamp (filter_session (cs_pk s) (messages d)))
      as [|m rest] eqn:Ho.
    + apply Permutation_sym, Permutation_nil in Hp. contradiction.
    + exists m. split.
      { apply (Permutation_in m (Permutation_sym Hp)). left. reflexivity. }
      split.
      { intros x Hx. apply (Permutation_in x Hp) in Hx.
        destruct Hx as [<- | Hx]; [lra|].
        unfold ascending in Hs. apply Sorted_extends in Hs.
        - exact (proj1 (List.Forall_forall _ _) Hs x Hx).
        - intros a b c Hab Hbc. lra. }
      split; [reflexivity|].
      destruct (Nat.ltb 50 (String.length (user_message m))) eqn:Hlen.
      * rewrite length_app_string.
        pose proof (str_prefix_length 50 (user_message m)).
        change (String.length "...") with 3. lia.
      * apply Nat.ltb_ge in Hlen. lia.
Qed.

Lemma get_title_untitled_witness :
  get_title no_title one_message
    {| cs_pk := 1; cs_session_id := "s"; cs_user := None;
       cs_created_at := inject_Z 0; cs_updated_at := inject_Z 0;
       cs_is_active := true |} = "hi".
Proof.
  destruct (get_title_untitled no_title one_message
              {| cs_pk := 1; cs_session_id := "s"; cs_user := None;
                 cs_created_at := inject_Z 0; cs_updated_at := inject_Z 0;
                 cs_is_active := true |} eq_refl) as [_ H].
  destruct H as (m & Hin & _ & Ht & _); [discriminate|].
  simpl in Hin. destruct Hin as [<- | []]. exact Ht.
Defined.

(** ** Request handler: statuses, effects and continuity *)

(** X26: [chat_api] answers with one of the statuses 200, 400, 429, 500
    and 503.  It answers 429 exactly when the rate limiter rejects; in
    every case the cache afterwards is the one the rate limiter left, so
    an admitted request is counted whether or not it is valid.  With 429,
    400 or 500 the store, the handler and the token are as before, and
    only a 200 adds a message. *)
Theorem chat_api_effects (E : env) (st : app) (req : request) (a : ambient) :
  let resp := fst (fst (chat_api E st req a)) in
  let st' := snd (fst (chat_api E st req a)) in
  let tok' := snd (chat_api E st req a) in
  In (status resp) [200; 400; 429; 500; 503]
  /\ (status resp = 429 <->
      fst (rate_limit_check (the_cache st) req (now a) 6 60) = false)
  /\ the_cache st' = snd (rate_limit_check (the_cache st) req (now a) 6 60)
  /\ (status resp = 429 \/ status resp = 400 \/ status resp = 500 ->
      db st' = db st /\ gemini_handler st' = gemini_handler st
      /\ tok' = current_chat_session req)
  /\ (status resp <> 200 -> messages (db st') = messages (db st)).
Proof.
  cbv zeta. unfold chat_api.
  destruct (rate_limit_check _ _ _ _ _) as [ok c'].
  destruct ok; simpl.
  2:{ repeat split; intros; try discriminate; try reflexivity; auto 10. }
  destruct (req_body req) as [| |m]; simpl.
  1,2: repeat split; intros; try discriminate; try reflexivity; auto 10.
  destruct (Nat.eqb _ 0); simpl.
  1: repeat split; intros; try discriminate; try reflexivity; auto 10.
  destruct (sanitize_input _) as [um|e]; simpl.
  2: repeat split; intros; try discriminate; try reflexivity; auto 10.
  pose proof (get_or_create_session_messages (db st) req a) as Hm.
  destruct (get_or_create_session (db st) req a) as [[cs d] tok]. simpl in Hm.
  destruct (generate_response E _ _ um 5) as [[s|e] h']; simpl.
  - repeat split; intros; try discriminate; try reflexivity; auto 10;
      try contradiction; exfalso; intuition discriminate.
  - repeat split; intros; try discriminate; try reflexivity; auto 10;
      try exact Hm; exfalso; intuition discriminate.
Qed.

Lemma find_map_stable {A : Type} (p : A -> bool) (f : A -> A) (l : list A) :
  (forall x, p (f x) = p x) ->
  find p (map f l) = option_map f (find p l).
Proof.
  intro H. induction l as [|x l IH]; [reflexivity|]. simpl.
  rewrite H. destruct (p x); [reflexivity | exact IH].
Qed.

Lemma get_or_create_session_findable (d d' : store) (req : request)
    (a : ambient) (s : ChatSession) (tok : option string) :
  uuid4 a <> EmptyString ->
  unused (uuid4 a) d ->
  get_or_create_session d req a = (s, d', tok) ->
  cs_session_id s <> EmptyString
  /\ find (fun x => String.eqb (cs_session_id x) (cs_session_id s)
                    && cs_is_active x) (sessions d') = Some s.
Proof.
  intros Hne Hun H0. pose proof H0 as H.
  apply get_or_create_session_inv in H.
  destruct H as (Hact & Hin & Htok & Hmsg & [Hfound | Hnew]).
  - destruct Hfound as (-> & _ & Hcur & Hid). split; [exact Hid|].
    unfold get_or_create_session in H0. rewrite Hcur in H0.
    destruct (Nat.eqb (String.length (cs_session_id s)) 0).
    + exfalso. inversion H0 as [[Hs Hd Ht]].
      assert (Hlen : length (sessions d ++ [s]) = length (sessions d))
        by (rewrite <- Hd at 2; simpl; rewrite Hs; reflexivity).
      rewrite length_app in Hlen. simpl in Hlen. lia.
    + destruct (find _ (sessions d)) as [s0|] eqn:Hf.
      * inversion H0; subst. reflexivity.
      * exfalso. inversion H0 as [[Hs Hd Ht]].
        assert (Hlen : length (sessions d ++ [s]) = length (sessions d))
          by (rewrite <- Hd at 2; simpl; rewrite Hs; reflexivity).
        rewrite length_app in Hlen. simpl in Hlen. lia.
  - destruct Hnew as (Hs & Hid & _). split; [rewrite Hid; exact Hne|].
    rewrite Hs, Hid, find_app_split.
    assert (Hnone : find (fun s0 => String.eqb (cs_session_id s0) (uuid4 a)
                                    && cs_is_active s0) (sessions d) = None).
    { destruct (find _ (sessions d)) as [x|] eqn:Hf; [|reflexivity].
      apply find_some in Hf. destruct Hf as [Hx Hp].
      apply andb_true_iff in Hp. destruct Hp as [Hp _].
      apply String.eqb_eq in Hp. exfalso. exact (Hun x Hx Hp). }
    rewrite Hnone. simpl. rewrite Hid, String.eqb_refl, Hact. reflexivity.
Qed.

Section Continuity.
Variable E : env.

(** X27: a 200 answer and the row it stores agree: the request carried a
    message that the validator accepted; the row holds the validated
    message, free of [<], [>] and quotes, and the reply the completion
    client returned, under the session the answer and the token name;
    that session is stamped with the time of the request. *)
Theorem chat_api_success (st st' : app) (req : request) (a : ambient)
    (resp : JsonResponse) (tok' : option string) :
  chat_api E st req a = (resp, st', tok') ->
  status resp = 200 ->
  exists raw new_row s,
    req_body req = Message (Some raw)
    /\ sanitize_input raw = Ok (user_message new_row)
    /\ free_of ["<"%char; ">"%char; Py.dquote; Py.squote] (user_message new_row)
    /\ fst (generate_response E (gemini_handler st) (chat_history st req a)
              (user_message new_row) 5) = Ok (ai_response new_row)
    /\ content resp = ReplyBody (ai_response new_row)
                        (round2 (end_time a - start_time a)) (cs_session_id s)
    /\ tok' = Some (cs_session_id s)
    /\ messages (db st') = messages (db st) ++ [new_row]
    /\ session new_row = cs_pk s
    /\ timestamp new_row = tz_now a
    /\ tokens_used new_row = Py.split_len (user_message new_row)
                             + Py.split_len (ai_response new_row)
    /\ exists s', In s' (sessions (db st'))
                  /\ cs_pk s' = cs_pk s
                  /\ cs_session_id s' = cs_session_id s
                  /\ cs_updated_at s' = tz_now a.
Proof.
  unfold chat_api, chat_history.
  destruct (rate_limit_check _ _ _ _ _) as [ok c'].
  destruct ok; simpl; [|intros H Hs; inversion H; subst; discriminate].
  destruct (req_body req) as [| |m] eqn:Hbody; simpl;
    try (intros H Hs; inversion H; subst; discriminate).
  destruct (Nat.eqb _ 0); simpl;
    [intros H Hs; inversion H; subst; discriminate|].
  destruct (sanitize_input _) as [um|e] eqn:Hsan; simpl;
    [|intros H Hs; inversion H; subst; discriminate].
  destruct m as [raw|]; [|discriminate Hsan].
  simpl in Hsan.
  destruct (get_or_create_session (db st) req a) as [[cs d] tok] eqn:Hg.
  pose proof (get_or_create_session_inv _ _ _ _ _ _ Hg)
    as (Hact & Hin & Htok & Hmsg & _).
  destruct (generate_response E _ _ um 5) as [[ai|e] h'] eqn:Hgen; simpl;
    [|intros H Hs; inversion H; subst; discriminate].
  intros H _. inversion H; subst resp st' tok'. clear H. simpl.
  exists raw,
    {| session := cs_pk cs; user_message := um; ai_response := ai;
       timestamp := tz_now a;
       response_time := (end_time a - start_time a)%Q;
       tokens_used := Py.split_len um + Py.split_len ai |}, cs.
  simpl.
  split; [reflexivity|]. split; [exact Hsan|].
  split; [destruct (sanitize_input_ok_inv raw um Hsan) as [_ ->];
          apply escape_free|].
  split; [rewrite Hgen; reflexivity|]. split; [reflexivity|].
  split; [exact Htok|].
  split; [rewrite Hmsg; reflexivity|].
  split; [reflexivity|]. split; [reflexivity|]. split; [reflexivity|].
  eexists. split.
  - unfold touch. apply in_map. exact Hin.
  - simpl. rewrite Nat.eqb_refl. simpl. repeat split.
Qed.

(** X28: the conversation carries on: after a 200 answer, when the fresh
    identifier was not empty and not in use and no stored message is
    dated after the request, the history that the next request with the
    returned token hands to the completion client ends with the user
    turn of the validated message and the model turn of the reply. *)
Theorem chat_api_continuity (st st' : app) (req next : request)
    (a a' : ambient) (resp : JsonResponse) (tok' : option string)
    (reply : string) (latency : Q) (sid : string) :
  chat_api E st req a = (resp, st', tok') ->
  content resp = ReplyBody reply latency sid ->
  uuid4 a <> EmptyString ->
  unused (uuid4 a) (db st) ->
  (forall m, In m (messages (db st)) -> (timestamp m <= tz_now a)%Q) ->
  exists raw um earlier,
    req_body req = Message (Some raw)
    /\ sanitize_input raw = Ok um
    /\ chat_history st' (with_token next tok') a'
       = earlier ++ [user_turn um; model_turn reply].
Proof.
  unfold chat_api.
  destruct (rate_limit_check _ _ _ _ _) as [ok c'].
  destruct ok; simpl; [|intros H Hc; inversion H; subst; discriminate].
  destruct (req_body req) as [| |m] eqn:Hbody; simpl;
    try (intros H Hc; inversion H; subst; discriminate).
  destruct (Nat.eqb _ 0); simpl;
    [intros H Hc; inversion H; subst; discriminate|].
  destruct (sanitize_input _) as [um|e] eqn:Hsan; simpl;
    [|intros H Hc; inversion H; subst; discriminate].
  destruct m as [raw|]; [|discriminate Hsan].
  simpl in Hsan.
  destruct (get_or_create_session (db st) req a) as [[cs d] tok] eqn:Hg.
  destruct (generate_response E _ _ um 5) as [[ai|e] h'] eqn:Hgen; simpl;
    [|intros H Hc; inversion H; subst; discriminate].
  intros H Hc Hne Hun Hts. inversion H; subst resp st' tok'. clear H.
  simpl in Hc. inversion Hc; subst reply latency sid. clear Hc.
  pose proof (get_or_create_session_inv _ _ _ _ _ _ Hg)
    as (Hact & Hin & Htok & Hmsg & _).
  destruct (get_or_create_session_findable _ _ _ _ _ _ Hne Hun Hg)
    as [Hid Hfind].
  exists raw, um.
  unfold chat_history, get_or_create_session. simpl. rewrite Htok.
  assert (Hl : Nat.eqb (String.length (cs_session_id cs)) 0 = false).
  { destruct (Nat.eqb (String.length (cs_session_id cs)) 0) eqn:Hl0; [|reflexivity].
    apply length_zero_iff_empty in Hl0. contradiction. }
  rewrite Hl. unfold touch. rewrite find_map_stable.
  2:{ intro x. destruct (Nat.eqb (cs_pk x) (cs_pk cs)); reflexivity. }
  rewrite Hfind. simpl. rewrite Nat.eqb_refl. simpl.
  set (new_row := {| session := cs_pk cs; user_message := um; ai_response := ai;
                     timestamp := tz_now a;
                     response_time := (end_time a - start_time a)%Q;
                     tokens_used := Py.split_len um + Py.split_len ai |}).
  destruct (context_ends_with_new_row d
              (map (fun s => if Nat.eqb (cs_pk s) (cs_pk cs)
                             then {| cs_pk := cs_pk s;
                                     cs_session_id := cs_session_id s;
                                     cs_user := cs_user s;
                                     cs_created_at := cs_created_at s;
                                     cs_updated_at := tz_now a;
                                     cs_is_active := cs_is_active s |}
                             else s) (sessions d))
              new_row 4 ltac:(lia)) as [earlier Hctx].
  - intros x Hx _. simpl. apply Hts. rewrite <- Hmsg. exact Hx.
  - exists earlier. split; [reflexivity|]. split; [exact Hsan|]. exact Hctx.
Qed.

End Continuity.

Lemma chat_api_success_witness :
  exists new_row,
    messages (db (snd (fst (chat_api (scripted [Text " Hello! "]) primed_app
                               client_a noon)))) = [new_row]
    /\ ai_response new_row = "Hello!".
Proof.
  destruct (chat_api_success (scripted [Text " Hello! "]) primed_app
              (snd (fst (chat_api (scripted [Text " Hello! "]) primed_app
                           client_a noon)))
              client_a noon
              (fst (fst (chat_api (scripted [Text " Hello! "]) primed_app
                           client_a noon)))
              (snd (chat_api (scripted [Text " Hello! "]) primed_app
                      client_a noon)))
    as (raw & new_row & s & _ & _ & _ & Hgen & _ & _ & Hmsg & _).
  - reflexivity.
  - vm_compute. reflexivity.
  - exists new_row. split; [exact Hmsg|].
    vm_compute in Hgen. inversion Hgen as [Hai]. symmetry. exact Hai.
Defined.

Lemma chat_api_continuity_witness :
  exists earlier,
    chat_history
      (snd (fst (chat_api (scripted [Text " Hello! "]) primed_app client_a noon)))
      (with_token client_a
         (snd (chat_api (scripted [Text " Hello! "]) primed_app client_a noon)))
      noon
    = earlier ++ [user_turn "Hello"; model_turn "Hello!"].
Proof.
  destruct (chat_api_continuity (scripted [Text " Hello! "]) primed_app
              (snd (fst (chat_api (scripted [Text " Hello! "]) primed_app
                           client_a noon)))
              client_a client_a noon noon
              (fst (fst (chat_api (scripted [Text " Hello! "]) primed_app
                           client_a noon)))
              (snd (chat_api (scripted [Text " Hello! "]) primed_app
                      client_a noon))
              "Hello!" (round2 (end_time noon - start_time noon))
              (uuid4 noon))
    as (raw & um & earlier & Hb & Hs & Hctx).
  - reflexivity.
  - vm_compute. reflexivity.
  - discriminate.
  - intros s [].
  - intros m [].
  - exists earlier. inversion Hb; subst raw.
    vm_compute in Hs. inversion Hs; subst um. exact Hctx.
Defined.
